(** * cview ScrollView: a shallow embedding and its verified properties

    The development follows the ScrollView source of the cview terminal toolkit:
    the [scrollItem] and [ScrollView] structures, the item-list mutators
    ([AddItem], [AddItemAtIndex], [RemoveItem], [ResizeItem]), the frame
    routine [Draw], [ScrollTo], focus delegation and the mouse handler.

    Go's [int] is modelled as a 64-bit two's complement integer carried
    in [Z]; Go's [float64] is IEEE-754 binary64, carried by Rocq's
    primitive floats.  Collaborators that live outside the file ([Box],
    the [Primitive] interface, the screen, [RenderScrollBar]) appear as
    interfaces (type classes) and as events of an output trace. *)

From Stdlib Require Import ZArith Lia Ascii.
From Stdlib Require Floats.PrimFloat Floats.SpecFloat Floats.FloatOps
  Floats.FloatAxioms.
From stdpp Require Import base list.

Local Open Scope Z_scope.

(** ** Machine integers *)

Module GoInt.

Definition int_min : Z := - 2 ^ 63.
Definition int_max : Z := 2 ^ 63 - 1.

(** Reduction of a mathematical integer to the 64-bit signed range. *)
Definition wrap (z : Z) : Z := (z + 2 ^ 63) mod 2 ^ 64 - 2 ^ 63.

Definition in_range (z : Z) : Prop := int_min <= z <= int_max.

(** [a + b] and [a - b] on Go's [int]. *)
Definition add (a b : Z) : Z := wrap (a + b).
Definition sub (a b : Z) : Z := wrap (a - b).

(** Magnitudes far from the overflow boundary: sums of a handful of
    small values never wrap. *)
Definition small (z : Z) : Prop := - 2 ^ 60 <= z <= 2 ^ 60.

End GoInt.

(** ** float64 *)

Module GoFloat.

Import Floats.PrimFloat Floats.SpecFloat Floats.FloatOps.

(** [float64(z)]: the binary64 value nearest to [z], ties to even. *)
Definition float64_of_int (z : Z) : float :=
  SF2Prim (binary_normalize prec emax z 0 false).

(** [int(f)]: the fraction is discarded (truncation towards zero).  When
    [int] cannot represent the value (NaN, infinities, out of range) the
    result depends on the implementation; [unrep] supplies it. *)
Definition int_of_float64 (unrep : float -> Z) (f : float) : Z :=
  match Prim2SF f with
  | S754_zero _ => 0
  | S754_finite s m e =>
      let a := if 0 <=? e then Z.shiftl (Z.pos m) e
               else Z.shiftr (Z.pos m) (- e) in
      let v := if s then - a else a in
      if (GoInt.int_min <=? v) && (v <=? GoInt.int_max) then v else unrep f
  | _ => unrep f
  end.

(** The conversion of an unrepresentable value as amd64 performs it. *)
Definition unrep_amd64 (_ : float) : Z := GoInt.int_min.

End GoFloat.

(** ** Data model *)

(** The identity of a primitive: Go compares interface values holding
    pointers by address.  A nil [Primitive] is [None]. *)
Definition Prim : Type := nat.
Definition Primitive : Type := option Prim.

Definition Color : Type := Z.

(** [tcell.StyleDefault.Background(c)]. *)
Inductive Style : Type :=
| StyleDefault_Background (c : Color).

(** Modelled from the spec: the scroll-bar visibility mode, one of
    Never, Auto and Always.  The type is declared outside the ScrollView
    source, which names [ScrollBarAuto] and [ScrollBarAlways]. *)
Inductive ScrollBarVisibility : Type :=
| ScrollBarNever
| ScrollBarAuto
| ScrollBarAlways.

#[global] Instance ScrollBarVisibility_eq_dec : EqDecision ScrollBarVisibility.
Proof. solve_decision. Defined.

(** Modelled from the spec: the discrete mouse actions the input
    collaborator supplies (moves, button events, wheel events).  The type
    is declared outside the ScrollView source, which names
    [MouseScrollUp] and [MouseScrollDown]. *)
Inductive MouseAction : Type :=
| MouseMove
| MouseLeftDown
| MouseLeftUp
| MouseLeftClick
| MouseLeftDoubleClick
| MouseMiddleDown
| MouseMiddleUp
| MouseMiddleClick
| MouseMiddleDoubleClick
| MouseRightDown
| MouseRightUp
| MouseRightClick
| MouseRightDoubleClick
| MouseScrollUp
| MouseScrollDown
| MouseScrollLeft
| MouseScrollRight.

(** [*tcell.EventMouse]; only [Position()] is used. *)
Record EventMouse : Type := { Position : Z * Z }.

(** The screen surface; only [Size()] is read, writes are events. *)
Record Screen : Type := { Size : Z * Z }.

(** [Styles]: the global theme, with the two colors the ScrollView reads. *)
Record Theme : Type := {
  ScrollBarColor : Color;
  PrimitiveBackgroundColor : Color
}.

(** [scrollItem] holds layout options for one item. *)
Record scrollItem : Type := {
  Item : Primitive;   (* The item to be positioned. May be nil. *)
  FixedSize : Z;      (* The item's fixed size. *)
  Focus : bool        (* Whether this item attracts the layout's focus. *)
}.

(** What [Draw] and the handlers do to their collaborators, in order. *)
Inductive event : Type :=
| EvBoxDraw
| EvSetRect (p : Prim) (x y width height : Z)
| EvDraw (p : Prim)
| EvSetContent (x y : Z) (r : ascii) (style : Style)
| EvRenderScrollBar (visibility : ScrollBarVisibility)
    (x y height items cursor printed : Z) (hasFocus : bool) (color : Color).

Arguments EvSetRect p%_nat (x y width height)%_Z.
Arguments EvDraw p%_nat.

(** A call either returns or ends in a run-time panic. *)
Inductive outcome : Type := Returned | Panicked.

(** ** Collaborator interfaces *)

(** The embedded [*Box], as far as [ScrollView] uses it. *)
Class BoxAPI (Box : Type) : Type := {
  Box_GetVisible : Box -> bool;
  Box_SetRect : Z -> Z -> Z -> Z -> Box -> Box;
  Box_GetInnerRect : Box -> Z * Z * Z * Z;
  Box_InRect : Z -> Z -> Box -> bool;
  Box_hasFocus : Box -> bool
}.

(** The child primitives.  Their state lives in a world [W] that every
    call on a child may change. *)
Class PrimitiveAPI (W : Type) : Type := {
  Primitive_SetRect : Prim -> Z -> Z -> Z -> Z -> W -> W;
  Primitive_Draw : Prim -> W -> W;
  Primitive_HasFocus : Prim -> W -> bool;   (* GetFocusable().HasFocus() *)
  Primitive_MouseHandler :
    Prim -> MouseAction -> EventMouse -> W -> (bool * Primitive) * W;
  NewBox : W -> Prim * W;
  Primitive_SetVisible : Prim -> bool -> W -> W
}.

(** [for v := lo; v < hi; v++]: the values the counter takes.  The counter
    stays below [hi], so it does not overflow as long as [hi] is an [int]. *)
Definition for_lt (lo hi : Z) : list Z :=
  map (fun k : nat => lo + Z.of_nat k) (seq 0 (Z.to_nat (hi - lo))).

Definition sumSizes (items : list scrollItem) : Z :=
  foldr (fun it acc => FixedSize it + acc) 0 items.

(** ** ScrollView *)

(** [ScrollView]: the embedded [*Box] and the fields of the structure.
    (The read/write mutex is not part of the sequential model.) *)
Record ScrollView (B : Type) : Type := {
  Box : B;
  items : list scrollItem;             (* The items to be positioned. *)
  fullScreen : bool;                   (* Use the entire screen. *)
  scrollBarVisibility : ScrollBarVisibility;
  scrollBarColor : Color;
  heightOffset : Z
}.
Arguments Box {B} _.
Arguments items {B} _.
Arguments fullScreen {B} _.
Arguments scrollBarVisibility {B} _.
Arguments scrollBarColor {B} _.
Arguments heightOffset {B} _.

Definition set_items {B} (its : list scrollItem) (f : ScrollView B) : ScrollView B :=
  {| Box := Box f; items := its; fullScreen := fullScreen f;
     scrollBarVisibility := scrollBarVisibility f;
     scrollBarColor := scrollBarColor f; heightOffset := heightOffset f |}.

Definition set_heightOffset {B} (h : Z) (f : ScrollView B) : ScrollView B :=
  {| Box := Box f; items := items f; fullScreen := fullScreen f;
     scrollBarVisibility := scrollBarVisibility f;
     scrollBarColor := scrollBarColor f; heightOffset := h |}.

Definition set_Box {B} (b : B) (f : ScrollView B) : ScrollView B :=
  {| Box := b; items := items f; fullScreen := fullScreen f;
     scrollBarVisibility := scrollBarVisibility f;
     scrollBarColor := scrollBarColor f; heightOffset := heightOffset f |}.

(** [SetScrollBarVisibility], [SetScrollBarColor], [SetFullScreen]. *)
Definition SetScrollBarVisibility {B} (visibility : ScrollBarVisibility)
    (f : ScrollView B) : ScrollView B :=
  {| Box := Box f; items := items f; fullScreen := fullScreen f;
     scrollBarVisibility := visibility;
     scrollBarColor := scrollBarColor f; heightOffset := heightOffset f |}.

Definition SetScrollBarColor {B} (color : Color) (f : ScrollView B) : ScrollView B :=
  {| Box := Box f; items := items f; fullScreen := fullScreen f;
     scrollBarVisibility := scrollBarVisibility f;
     scrollBarColor := color; heightOffset := heightOffset f |}.

Definition SetFullScreen {B} (fs : bool) (f : ScrollView B) : ScrollView B :=
  {| Box := Box f; items := items f; fullScreen := fs;
     scrollBarVisibility := scrollBarVisibility f;
     scrollBarColor := scrollBarColor f; heightOffset := heightOffset f |}.


(** [GetItems] returns a slice of all items in the container. *)
Definition GetItems {B} (f : ScrollView B) : list Primitive :=
  map Item (items f).

(** [ScrollTo] scrolls to the specified height; the width is ignored. *)
Definition ScrollTo {B} (height width : Z) (f : ScrollView B) : ScrollView B :=
  set_heightOffset height f.

(** [AddItemAtIndex]: [append(items[:index], append([]{new}, items[index:]...)...)].
    Slicing outside [0, len] panics. *)
Definition AddItemAtIndex {B} (index : Z) (item : Primitive) (fixedSize : Z)
    (focus : bool) (f : ScrollView B) : option (ScrollView B) :=
  let newItem := {| Item := item; FixedSize := fixedSize; Focus := focus |} in
  if index =? 0 then Some (set_items (newItem :: items f) f)
  else if (0 <=? index) && (index <=? Z.of_nat (length (items f))) then
    Some (set_items (take (Z.to_nat index) (items f)
                       ++ newItem :: drop (Z.to_nat index) (items f)) f)
  else None.

(** The loop of [RemoveItem]: [n] is [index + 1]; indexing outside the
    slice panics. *)
Fixpoint RemoveItem_loop (n : nat) (p : Primitive) (its : list scrollItem)
    : option (list scrollItem) :=
  match n with
  | O => Some its
  | S index =>
      match its !! index with
      | None => None
      | Some it =>
          RemoveItem_loop index p
            (if decide (Item it = p)
             then take index its ++ drop (S index) its
             else its)
      end
  end.

(** [RemoveItem] removes all items for the given primitive. *)
Definition RemoveItem {B} (p : Primitive) (f : ScrollView B) : option (ScrollView B) :=
  match RemoveItem_loop (length (items f)) p (items f) with
  | Some its => Some (set_items its f)
  | None => None
  end.

(** [ResizeItem] sets a new size for the item(s) with the given primitive. *)
Definition ResizeItem {B} (p : Primitive) (fixedSize : Z) (f : ScrollView B)
    : ScrollView B :=
  set_items
    (map (fun it => if decide (Item it = p)
                    then {| Item := Item it; FixedSize := fixedSize; Focus := Focus it |}
                    else it) (items f)) f.

(** The loop of [ScrollView.Focus]: the arguments [delegate] is called
    with, in order (the method returns right after the call). *)
Fixpoint Focus_loop (its : list scrollItem) : list Prim :=
  match its with
  | [] => []
  | item :: rest =>
      match Item item with
      | Some p => if Focus item then [p] else Focus_loop rest
      | None => Focus_loop rest
      end
  end.

(** [ScrollView.Focus] (the field [Focus] of [scrollItem] keeps the
    short name). *)
Definition ScrollView_Focus {B} (f : ScrollView B) : list Prim :=
  Focus_loop (items f).

Section Interaction.

Context {B : Type} {HB : BoxAPI B} {W : Type} {HW : PrimitiveAPI W}.

(** The global [Styles] and the platform's conversion of a [float64]
    that [int] cannot represent. *)
Variable Styles : Theme.
Variable unrep : PrimFloat.float -> Z.

(** [AddItem] adds a new item to the container; a nil primitive becomes
    a new invisible [Box]. *)
Definition AddItem (item : Primitive) (fixedSize : Z) (focus : bool)
    (f : ScrollView B) (w : W) : ScrollView B * W :=
  let '(item1, w1) :=
    match item with
    | None => let '(b, w0) := NewBox w in (b, Primitive_SetVisible b false w0)
    | Some p => (p, w)
    end in
  (set_items
     (items f ++ [{| Item := Some item1; FixedSize := fixedSize; Focus := focus |}]) f,
   w1).

(** [HasFocus] returns whether or not this primitive has focus. *)
Definition HasFocus (f : ScrollView B) (w : W) : bool :=
  existsb (fun item => match Item item with
                       | Some p => Primitive_HasFocus p w
                       | None => false
                       end) (items f).

(** *** Draw *)

(** [contentHeight]: the loop [contentHeight += item.FixedSize]. *)
Definition contentHeight (its : list scrollItem) : Z :=
  fold_left (fun acc it => GoInt.add acc (FixedSize it)) its 0.

Definition showVerticalScrollBar (v : ScrollBarVisibility)
    (contentHeight visibleheight : Z) : bool :=
  bool_decide (v = ScrollBarAlways)
  || (bool_decide (v = ScrollBarAuto) && (contentHeight >? visibleheight)).

(** The re-clamping of [heightOffset] at the start of [Draw]. *)
Definition clampOffset (y visibleheight contentHeight heightOffset : Z) : Z :=
  if (contentHeight >? visibleheight)
     && (GoInt.add (GoInt.add y heightOffset) visibleheight
           >? GoInt.add y contentHeight)
  then GoInt.sub contentHeight visibleheight
  else heightOffset.

(** The local variables after the item loop, what the loop did, and the
    draws it deferred (in the order of the [defer] statements). *)
Record loopResult : Type := {
  lr_pos : Z;
  lr_posScrolled : Z;
  lr_firstVisibleY : Z;
  lr_world : W;
  lr_events : list event;
  lr_deferred : list Prim;
  lr_outcome : outcome
}.

Definition lr_emit (evs : list event) (defs : list Prim) (r : loopResult)
    : loopResult :=
  {| lr_pos := lr_pos r; lr_posScrolled := lr_posScrolled r;
     lr_firstVisibleY := lr_firstVisibleY r; lr_world := lr_world r;
     lr_events := evs ++ lr_events r; lr_deferred := defs ++ lr_deferred r;
     lr_outcome := lr_outcome r |}.

(** The item loop of [Draw].  [item.Item.SetRect] on a nil interface
    panics, so the later test [item.Item != nil] only sees non-nil items. *)
Fixpoint drawItems (x y width heightOffset : Z) (show : bool)
    (its : list scrollItem) (pos posScrolled firstVisibleY : Z) (w : W)
    : loopResult :=
  match its with
  | [] =>
      {| lr_pos := pos; lr_posScrolled := posScrolled;
         lr_firstVisibleY := firstVisibleY; lr_world := w;
         lr_events := []; lr_deferred := []; lr_outcome := Returned |}
  | item :: rest =>
      let size := FixedSize item in
      if (posScrolled <? GoInt.add y heightOffset) && show then
        (* scrolled *)
        drawItems x y width heightOffset show rest
          pos (GoInt.add posScrolled size) firstVisibleY w
      else
        let firstVisibleY1 :=
          if firstVisibleY =? -1 then posScrolled else firstVisibleY in
        let posScrolled1 := GoInt.add posScrolled size in
        match Item item with
        | None =>
            {| lr_pos := pos; lr_posScrolled := posScrolled1;
               lr_firstVisibleY := firstVisibleY1; lr_world := w;
               lr_events := []; lr_deferred := []; lr_outcome := Panicked |}
        | Some p =>
            let w1 := Primitive_SetRect p x pos width size w in
            let pos1 := GoInt.add pos size in
            if Primitive_HasFocus p w1 then
              lr_emit [EvSetRect p x pos width size] [p]
                (drawItems x y width heightOffset show rest
                   pos1 posScrolled1 firstVisibleY1 w1)
            else
              lr_emit [EvSetRect p x pos width size; EvDraw p] []
                (drawItems x y width heightOffset show rest
                   pos1 posScrolled1 firstVisibleY1 (Primitive_Draw p w1))
        end
  end.

(** Deferred calls run last-in first-out when the function exits. *)
Definition runDeferred (defs : list Prim) (w : W) : W * list event :=
  (fold_left (fun w0 p => Primitive_Draw p w0) (rev defs) w,
   map EvDraw (rev defs)).

(** "fill the remaining space".  The inner counter [xx] runs while
    [x+xx < width], that is over [0 .. width-x-1]; every write goes to
    column [x]. *)
Definition fillRemaining (x y width visibleheight pos : Z) : list event :=
  if pos <? GoInt.add y visibleheight then
    flat_map (fun i =>
      map (fun xx : Z =>
             EvSetContent x i " "%char
               (StyleDefault_Background (PrimitiveBackgroundColor Styles)))
          (for_lt 0 (width - x)))
      (for_lt pos (GoInt.add y visibleheight))
  else [].

(** The divisor of the cursor formula, [contentHeight-visibleheight]. *)
Definition cursorDivisor (contentHeight visibleheight : Z) : Z :=
  GoInt.sub contentHeight visibleheight.

(** [int(float64(contentHeight) *
         (float64(firstVisibleY-y) / float64(contentHeight-visibleheight)))]. *)
Definition cursorRaw (contentHeight visibleheight firstVisibleY y : Z) : Z :=
  GoFloat.int_of_float64 unrep
    (PrimFloat.mul (GoFloat.float64_of_int contentHeight)
       (PrimFloat.div
          (GoFloat.float64_of_int (GoInt.sub firstVisibleY y))
          (GoFloat.float64_of_int (cursorDivisor contentHeight visibleheight)))).

Definition cursorOf (contentHeight visibleheight firstVisibleY y : Z) : Z :=
  let cursor := cursorRaw contentHeight visibleheight firstVisibleY y in
  if cursor >? contentHeight then contentHeight else cursor.

Record DrawResult : Type := {
  dr_view : ScrollView B;
  dr_world : W;
  dr_trace : list event;
  dr_outcome : outcome
}.

(** The box [GetInnerRect] is asked on: resized to the screen when the
    full-screen flag is set. *)
Definition drawBox (f : ScrollView B) (screen : Screen) : B :=
  if fullScreen f
  then let '(width, height) := Size screen in Box_SetRect 0 0 width height (Box f)
  else Box f.

(** The body of [Draw] below the call of [GetInnerRect], which gave
    [(x, y, width, visibleheight)] for [box1]. *)
Definition drawInner (f : ScrollView B) (box1 : B)
    (x y width visibleheight : Z) (w : W) : DrawResult :=
  let contentHeight := contentHeight (items f) in
  let heightOffset1 := clampOffset y visibleheight contentHeight (heightOffset f) in
  let show := showVerticalScrollBar (scrollBarVisibility f) contentHeight visibleheight in
  let width1 := if (width >? 0) && show then GoInt.sub width 1 else width in
  let f1 := set_heightOffset heightOffset1 (set_Box box1 f) in
  let r := drawItems x y width1 heightOffset1 show (items f) y y (-1) w in
  let '(wd, deferred) := runDeferred (lr_deferred r) (lr_world r) in
  match lr_outcome r with
  | Panicked =>
      {| dr_view := f1; dr_world := wd;
         dr_trace := EvBoxDraw :: lr_events r ++ deferred;
         dr_outcome := Panicked |}
  | Returned =>
      let fill := fillRemaining x y width1 visibleheight (lr_pos r) in
      let bar :=
        if negb show then []
        else
          let cursor := cursorOf contentHeight visibleheight (lr_firstVisibleY r) y in
          map (fun printed =>
                 EvRenderScrollBar (scrollBarVisibility f)
                   (GoInt.add x width1) (GoInt.add y printed)
                   visibleheight contentHeight cursor printed
                   (Box_hasFocus box1) (scrollBarColor f))
              (for_lt 0 visibleheight) in
      {| dr_view := f1; dr_world := wd;
         dr_trace := EvBoxDraw :: lr_events r ++ fill ++ bar ++ deferred;
         dr_outcome := Returned |}
  end.

(** [Draw] draws this primitive onto the screen. *)
Definition Draw (f : ScrollView B) (screen : Screen) (w : W) : DrawResult :=
  if negb (Box_GetVisible (Box f)) then
    {| dr_view := f; dr_world := w; dr_trace := []; dr_outcome := Returned |}
  else
    let box1 := drawBox f screen in
    let '(x, y, width, visibleheight) := Box_GetInnerRect box1 in
    drawInner f box1 x y width visibleheight w.

(** *** Mouse *)

(** One call of a child's mouse handler and what it answered. *)
Record childCall : Type := {
  cc_child : Prim;
  cc_consumed : bool;
  cc_capture : Primitive
}.

Record MouseResult : Type := {
  mr_view : ScrollView B;
  mr_world : W;
  mr_consumed : bool;
  mr_capture : Primitive;
  mr_calls : list childCall
}.

(** "Pass mouse events along to the first child item that takes it."
    [capture] is the named result, overwritten by every child called. *)
Fixpoint forwardMouse (action : MouseAction) (event : EventMouse)
    (its : list scrollItem) (capture : Primitive) (w : W)
    : bool * Primitive * W * list childCall :=
  match its with
  | [] => (false, capture, w, [])
  | item :: rest =>
      match Item item with
      | None => forwardMouse action event rest capture w
      | Some p =>
          let '(consumed, capture1, w1) := Primitive_MouseHandler p action event w in
          let call := {| cc_child := p; cc_consumed := consumed;
                         cc_capture := capture1 |} in
          if consumed then (true, capture1, w1, [call])
          else
            let '(c, cap, w2, calls) := forwardMouse action event rest capture1 w1 in
            (c, cap, w2, call :: calls)
      end
  end.

(** The handler [MouseHandler] hands to [WrapMouseHandler]. *)
Definition MouseHandler (f : ScrollView B) (action : MouseAction)
    (event : EventMouse) (w : W) : MouseResult :=
  let '(px, py) := Position event in
  if negb (Box_InRect px py (Box f)) then
    {| mr_view := f; mr_world := w; mr_consumed := false; mr_capture := None;
       mr_calls := [] |}
  else
    match action with
    | MouseScrollUp =>
        let h := GoInt.sub (heightOffset f) 1 in
        {| mr_view := set_heightOffset (if h <? 0 then 0 else h) f;
           mr_world := w; mr_consumed := true; mr_capture := None;
           mr_calls := [] |}
    | MouseScrollDown =>
        {| mr_view := set_heightOffset (GoInt.add (heightOffset f) 1) f;
           mr_world := w; mr_consumed := true; mr_capture := None;
           mr_calls := [] |}
    | _ =>
        let '(c, cap, w1, calls) := forwardMouse action event (items f) None w in
        {| mr_view := f; mr_world := w1; mr_consumed := c; mr_capture := cap;
           mr_calls := calls |}
    end.

End Interaction.

(** ** A concrete box and a concrete world of children

    They make the model run on examples. *)

(** Modelled from the spec: a [Box] is the minimal primitive, owning a
    rectangle; this one has no border and no padding, so its inner
    rectangle is its rectangle (with lengths not below zero), and a point
    is in it when it lies within the rectangle. *)
Record PlainBox : Type := {
  pb_visible : bool;
  pb_x : Z; pb_y : Z; pb_width : Z; pb_height : Z;
  pb_hasFocus : bool
}.

#[global] Instance PlainBox_API : BoxAPI PlainBox := {|
  Box_GetVisible b := pb_visible b;
  Box_SetRect x y width height b :=
    {| pb_visible := pb_visible b; pb_x := x; pb_y := y;
       pb_width := width; pb_height := height; pb_hasFocus := pb_hasFocus b |};
  Box_GetInnerRect b :=
    (pb_x b, pb_y b, Z.max 0 (pb_width b), Z.max 0 (pb_height b));
  Box_InRect px py b :=
    (pb_x b <=? px) && (px <? pb_x b + pb_width b)
    && (pb_y b <=? py) && (py <? pb_y b + pb_height b);
  Box_hasFocus b := pb_hasFocus b
|}.

(** A world of children: which ones have focus, which ones consume a
    mouse event, and the next fresh identity. *)
Record ToyWorld : Type := {
  tw_focused : list Prim;
  tw_consumers : list Prim;
  tw_next : Prim
}.

#[global] Instance ToyWorld_API : PrimitiveAPI ToyWorld := {|
  Primitive_SetRect _ _ _ _ _ w := w;
  Primitive_Draw _ w := w;
  Primitive_HasFocus p w := bool_decide (p ∈ tw_focused w);
  Primitive_MouseHandler p _ _ w :=
    (bool_decide (p ∈ tw_consumers w),
     if bool_decide (p ∈ tw_consumers w) then Some p else None, w);
  NewBox w :=
    (tw_next w,
     {| tw_focused := tw_focused w; tw_consumers := tw_consumers w;
        tw_next := S (tw_next w) |});
  Primitive_SetVisible _ _ w := w
|}.

Definition plainBox (x y width height : Z) : PlainBox :=
  {| pb_visible := true; pb_x := x; pb_y := y; pb_width := width;
     pb_height := height; pb_hasFocus := false |}.

Definition quietWorld : ToyWorld :=
  {| tw_focused := []; tw_consumers := []; tw_next := 100%nat |}.

Definition toyStyles : Theme :=
  {| ScrollBarColor := 7; PrimitiveBackgroundColor := 0 |}.

Definition toyScreen : Screen := {| Size := (80, 24) |}.

Definition eventAt (px py : Z) : EventMouse := {| Position := (px, py) |}.

Definition mkItem (p : Prim) (size : Z) (focus : bool) : scrollItem :=
  {| Item := Some p; FixedSize := size; Focus := focus |}.
Arguments mkItem p%_nat size%_Z focus.

Definition mkView (b : PlainBox) (its : list scrollItem)
    (v : ScrollBarVisibility) (offset : Z) : ScrollView PlainBox :=
  {| Box := b; items := its; fullScreen := false; scrollBarVisibility := v;
     scrollBarColor := 7; heightOffset := offset |}.

Definition nilItem (size : Z) (focus : bool) : scrollItem :=
  {| Item := None; FixedSize := size; Focus := focus |}.

(** Example inputs. *)
Definition threeTens : list scrollItem :=
  [mkItem 1 10 false; mkItem 2 10 false; mkItem 3 10 false].

Definition twoThrees : list scrollItem :=
  [mkItem 1 3 false; mkItem 2 3 false].

Definition focusABC : list scrollItem :=
  [mkItem 1 1 false; mkItem 2 1 true; mkItem 3 1 false].

(** A world in which children 1 and 3 have focus. *)
Definition focusWorld : ToyWorld :=
  {| tw_focused := [1%nat; 3%nat]; tw_consumers := []; tw_next := 100%nat |}.

(** A world in which child 2 takes mouse events. *)
Definition clickWorld : ToyWorld :=
  {| tw_focused := []; tw_consumers := [2%nat]; tw_next := 100%nat |}.

Definition mixedItems : list scrollItem :=
  [mkItem 1 1 false; nilItem 1 false; mkItem 2 1 false; mkItem 3 1 false].

(** Runs of the model on the concrete box and world. *)
Definition toyDraw (f : ScrollView PlainBox) : DrawResult :=
  Draw toyStyles GoFloat.unrep_amd64 f toyScreen quietWorld.

(** ** Observations on traces and specification-side notions *)

(** The rows ([printed]) for which the scroll bar was rendered. *)
Definition scrollBarRows (tr : list event) : list Z :=
  omap (fun e => match e with
                 | EvRenderScrollBar _ _ _ _ _ _ printed _ _ => Some printed
                 | _ => None
                 end) tr.

(** The cursor values handed to [RenderScrollBar]. *)
Definition scrollBarCursors (tr : list event) : list Z :=
  omap (fun e => match e with
                 | EvRenderScrollBar _ _ _ _ _ cursor _ _ _ => Some cursor
                 | _ => None
                 end) tr.

(** The cells written through [SetContent]. *)
Definition cellsWritten (tr : list event) : list (Z * Z) :=
  omap (fun e => match e with
                 | EvSetContent x y _ _ => Some (x, y)
                 | _ => None
                 end) tr.

(** The design's [clamp(k, lo, hi)]. *)
Definition clamp (k lo hi : Z) : Z := Z.max lo (Z.min k hi).

(** The sum of the magnitudes of the fixed sizes; when it is small the
    running sums of [Draw] do not wrap. *)
Definition sumAbs (its : list scrollItem) : Z :=
  foldr (fun it acc => Z.abs (FixedSize it) + acc) 0 its.

Definition sizes_small (its : list scrollItem) : Prop := sumAbs its <= 2 ^ 60.

(** The item the design's wording delegates focus to: the first one whose
    focus flag is set, whatever its primitive. *)
Definition firstFlagged (its : list scrollItem) : option scrollItem :=
  List.find Focus its.

(** An item that does not take delegated focus. *)
Definition declinesFocus (it : scrollItem) : Prop :=
  Item it = None \/ Focus it = false.

(** The calls recorded by the mouse handler replayed from world [w]:
    each child, asked in turn in the world its predecessors left, gives
    the recorded answer. *)
Fixpoint answered {W : Type} {HW : PrimitiveAPI W} (action : MouseAction)
    (event : EventMouse) (w : W) (calls : list childCall) : Prop :=
  match calls with
  | [] => True
  | c :: rest =>
      let '(consumed, capture, w1) :=
        Primitive_MouseHandler (cc_child c) action event w in
      consumed = cc_consumed c /\ capture = cc_capture c
      /\ answered action event w1 rest
  end.

(** The children did not take the event. *)
Definition allDeclined (calls : list childCall) : Prop :=
  Forall (fun c => cc_consumed c = false) calls.

(** A rectangle as [SetRect] takes it. *)
Record Rect : Type := { rx : Z; ry : Z; rwidth : Z; rheight : Z }.

(** The rectangles handed to the children, in order. *)
Definition setRects (tr : list event) : list (Prim * Rect) :=
  omap (fun e => match e with
                 | EvSetRect p x y width height =>
                     Some (p, {| rx := x; ry := y; rwidth := width;
                                 rheight := height |})
                 | _ => None
                 end) tr.

(** The children a trace calls [SetRect] or [Draw] on. *)
Definition touched (tr : list event) : list Prim :=
  omap (fun e => match e with
                 | EvSetRect p _ _ _ _ => Some p
                 | EvDraw p => Some p
                 | _ => None
                 end) tr.

(** The children drawn, in order. *)
Definition drawn (tr : list event) : list Prim :=
  omap (fun e => match e with
                 | EvDraw p => Some p
                 | _ => None
                 end) tr.

(** The screen positions [RenderScrollBar] was called for. *)
Definition scrollBarCells (tr : list event) : list (Z * Z) :=
  omap (fun e => match e with
                 | EvRenderScrollBar _ x y _ _ _ _ _ _ => Some (x, y)
                 | _ => None
                 end) tr.

(** Items laid out one below the other from row [pos], each as tall as
    its fixed size, all in column [x] with the same width. *)
Fixpoint stack (x width pos : Z) (its : list scrollItem)
    : list (Prim * Rect) :=
  match its with
  | [] => []
  | it :: rest =>
      match Item it with
      | Some p => [(p, {| rx := x; ry := pos; rwidth := width;
                          rheight := FixedSize it |})]
      | None => []
      end ++ stack x width (pos + FixedSize it) rest
  end.

(** The three kinds of events a frame emits after drawing its box. *)
Definition isChildEvent (e : event) : bool :=
  match e with EvSetRect _ _ _ _ _ | EvDraw _ => true | _ => false end.

Definition isFillEvent (e : event) : bool :=
  match e with EvSetContent _ _ _ _ => true | _ => false end.

Definition isBarEvent (e : event) : bool :=
  match e with EvRenderScrollBar _ _ _ _ _ _ _ _ _ => true | _ => false end.

(** No item holds a nil primitive. *)
Definition noNil (its : list scrollItem) : Prop :=
  Forall (fun it => Item it <> None) its.

(** ** Facts on machine integers *)

Module GoIntFacts.
Import GoInt.

Lemma wrap_in_range z : in_range z -> wrap z = z.
Proof.
  unfold in_range, int_min, int_max, wrap. intros Hz.
  rewrite Z.mod_small; lia.
Qed.

Lemma wrap_range z : in_range (wrap z).
Proof.
  unfold in_range, int_min, int_max, wrap.
  pose proof (Z.mod_pos_bound (z + 2 ^ 63) (2 ^ 64)). lia.
Qed.

Lemma add_exact a b : in_range (a + b) -> add a b = a + b.
Proof. apply wrap_in_range. Qed.

Lemma sub_exact a b : in_range (a - b) -> sub a b = a - b.
Proof. apply wrap_in_range. Qed.

(** Two distinct machine integers have a nonzero machine difference. *)
Lemma sub_nonzero a b : in_range a -> in_range b -> a <> b -> sub a b <> 0.
Proof.
  unfold in_range, int_min, int_max, sub, wrap. intros Ha Hb Hab Hz.
  assert (Hm : (a - b + 2 ^ 63) mod 2 ^ 64 = 2 ^ 63) by lia.
  pose proof (Z.div_mod (a - b + 2 ^ 63) (2 ^ 64)) as Hdm.
  assert (Hq : -1 <= (a - b + 2 ^ 63) / 2 ^ 64 <= 1).
  { split.
    - apply Z.div_le_lower_bound; lia.
    - apply Z.lt_succ_r, Z.div_lt_upper_bound; lia. }
  lia.
Qed.

Lemma small_in_range z : small z -> in_range z.
Proof. unfold small, in_range, int_min, int_max. lia. Qed.

End GoIntFacts.

(** ** Facts on float64

    Bounds on the binary64 operations of the cursor formula, from the
    specification of the primitive floats. *)

Module GoFloatFacts.
Import Floats.PrimFloat Floats.SpecFloat Floats.FloatOps Floats.FloatAxioms.
Import GoFloat.

(** *** Digits *)

Lemma digits_pos_lt p : Z.pos p < 2 ^ Z.pos (digits2_pos p).
Proof.
  induction p as [p IH|p IH|]; simpl; [| |done];
    rewrite Pos2Z.inj_succ, Z.pow_succ_r by lia; lia.
Qed.

Lemma digits_pos_ge p : 2 ^ (Z.pos (digits2_pos p) - 1) <= Z.pos p.
Proof.
  induction p as [p IH|p IH|]; simpl; [| |done];
    rewrite Pos2Z.inj_succ;
    replace (Z.succ (Z.pos (digits2_pos p)) - 1)
      with (Z.succ (Z.pos (digits2_pos p) - 1)) by lia;
    rewrite Z.pow_succ_r by lia; lia.
Qed.

Lemma digits_nonneg m : 0 <= Zdigits2 m.
Proof. by destruct m. Qed.

Lemma digits_lt m : 0 <= m -> m < 2 ^ Zdigits2 m.
Proof.
  destruct m as [|p|p]; simpl; [lia | | lia]. intros _. apply digits_pos_lt.
Qed.

(** A nonnegative number below [2^k] has at most [k] digits. *)
Lemma digits_le m k : 0 <= k -> 0 <= m < 2 ^ k -> Zdigits2 m <= k.
Proof.
  intros Hk [Hm Hlt]. destruct m as [|p|p]; simpl; [done | | lia].
  pose proof (digits_pos_ge p) as Hge.
  destruct (Z.le_gt_cases (Z.pos (digits2_pos p)) k) as [|Hgt]; [done|].
  assert (2 ^ k <= 2 ^ (Z.pos (digits2_pos p) - 1))
    by (apply Z.pow_le_mono_r; lia).
  lia.
Qed.

Lemma digits_iter_xO p d :
  digits2_pos (Pos.iter xO p d) = (digits2_pos p + d)%positive.
Proof.
  induction d as [|d IH] using Pos.peano_ind.
  - simpl. lia.
  - rewrite Pos.iter_succ. simpl. rewrite IH. lia.
Qed.

(** *** Shifting right *)

Lemma shr_1_m mrs : 0 <= shr_m mrs -> shr_m (shr_1 mrs) = shr_m mrs / 2.
Proof.
  destruct mrs as [m r s]. simpl. intros Hm.
  destruct m as [|[p|p|]|p]; simpl; try done; try lia.
  - rewrite Pos2Z.inj_xI. apply (Z.div_unique _ _ _ 1); lia.
  - rewrite Pos2Z.inj_xO. apply (Z.div_unique _ _ _ 0); lia.
Qed.

Lemma iter_shr_m p mrs :
  0 <= shr_m mrs ->
  shr_m (iter_pos shr_1 p mrs) = shr_m mrs / 2 ^ Z.pos p.
Proof.
  revert mrs. induction p as [p IH|p IH|]; intros mrs Hm; simpl.
  - assert (H1 : 0 <= shr_m (shr_1 mrs))
      by (rewrite shr_1_m by done; apply Z.div_pos; lia).
    assert (H2 : 0 <= shr_m (iter_pos shr_1 p (shr_1 mrs)))
      by (rewrite IH by done; apply Z.div_pos; lia).
    rewrite IH, IH, shr_1_m by done.
    rewrite !Z.div_div by lia. f_equal.
    rewrite Pos2Z.inj_xI.
    replace (2 * Z.pos p + 1) with (1 + Z.pos p + Z.pos p) by lia.
    rewrite !Z.pow_add_r by lia. rewrite Z.pow_1_r. lia.
  - assert (H2 : 0 <= shr_m (iter_pos shr_1 p mrs))
      by (rewrite IH by done; apply Z.div_pos; lia).
    rewrite IH, IH by done.
    rewrite !Z.div_div by lia. f_equal.
    rewrite <- Z.pow_add_r by lia. f_equal. lia.
  - by apply shr_1_m.
Qed.

Lemma shr_spec mrs e n :
  0 <= shr_m mrs ->
  (shr mrs e n).2 = e + Z.max n 0
  /\ shr_m (shr mrs e n).1 = shr_m mrs / 2 ^ Z.max n 0.
Proof.
  intros Hm. destruct n as [|p|p]; simpl.
  - split; [lia|]. by rewrite Z.div_1_r.
  - split; [done|]. by apply iter_shr_m.
  - split; [lia|]. by rewrite Z.div_1_r.
Qed.

Lemma shr_record_of_loc_m m l : shr_m (shr_record_of_loc m l) = m.
Proof. by destruct l as [|[]]. Qed.

Lemma shr_fexp_spec m e l :
  0 <= m ->
  (shr_fexp prec emax m e l).2 = Z.max e (fexp prec emax (Zdigits2 m + e))
  /\ shr_m (shr_fexp prec emax m e l).1
     = m / 2 ^ Z.max (fexp prec emax (Zdigits2 m + e) - e) 0.
Proof.
  intros Hm. unfold shr_fexp.
  destruct (shr_spec (shr_record_of_loc m l) e
              (fexp prec emax (Zdigits2 m + e) - e)) as [He Hs];
    [by rewrite shr_record_of_loc_m|].
  rewrite shr_record_of_loc_m in Hs. split; [lia | done].
Qed.

Lemma round_nearest_even_bounds m l :
  m <= round_nearest_even m l <= m + 1.
Proof. destruct l as [|[]]; simpl; try destruct (Z.even m); lia. Qed.

(** *** Rounding *)

(** Rounding a nonnegative mantissa gives a zero or a finite number of
    the same sign, whose exponent is bounded by the exponent and the
    magnitude it started from. *)
Lemma binary_round_aux_bound sx mx ex lx E :
  0 <= mx ->
  ex <= E -> Zdigits2 mx + ex - 52 <= E -> emin <= E -> E <= emax - prec ->
  binary_round_aux prec emax sx mx ex lx = S754_zero sx
  \/ exists m e,
       binary_round_aux prec emax sx mx ex lx = S754_finite sx m e /\ e <= E.
Proof.
  intros Hmx Hex Hmag Hemin Hemax. unfold binary_round_aux.
  destruct (shr_fexp_spec mx ex lx Hmx) as [He1 Hm1].
  destruct (shr_fexp prec emax mx ex lx) as [mrs1 e1]. simpl in He1, Hm1.
  set (m1 := round_nearest_even (shr_m mrs1) (loc_of_shr_record mrs1)).
  pose proof (round_nearest_even_bounds (shr_m mrs1) (loc_of_shr_record mrs1))
    as Hround. fold m1 in Hround.
  pose proof (digits_lt mx Hmx) as Hlt.
  pose proof (digits_nonneg mx) as Hk.
  set (k := Zdigits2 mx) in *.
  set (n := Z.max (fexp prec emax (k + ex) - ex) 0) in *.
  assert (Hn : 0 <= n) by lia.
  assert (Hs1 : 0 <= shr_m mrs1 < 2 ^ Z.max (k - n) 0).
  { rewrite Hm1. split; [apply Z.div_pos; lia|].
    destruct (Z.le_gt_cases n k) as [Hle | Hgt].
    - rewrite Z.max_l by lia. apply Z.div_lt_upper_bound; [lia|].
      rewrite <- Z.pow_add_r by lia. by replace (n + (k - n)) with k by lia.
    - rewrite Z.max_r by lia. rewrite Z.div_small; [done|].
      split; [done|]. apply Z.lt_le_trans with (2 ^ k); [done|].
      apply Z.pow_le_mono_r; lia. }
  assert (Hm1' : 0 <= m1) by lia.
  assert (Hd1 : Zdigits2 m1 <= Z.max (k - n) 0 + 1).
  { apply digits_le; [lia|]. split; [done|].
    rewrite Z.pow_add_r, Z.pow_1_r by lia. lia. }
  assert (He1' : e1 = ex + n) by (unfold n, fexp in *; lia).
  destruct (shr_fexp_spec m1 e1 loc_Exact Hm1') as [He2 Hm2].
  destruct (shr_fexp prec emax m1 e1 loc_Exact) as [mrs2 e2].
  simpl in He2, Hm2.
  assert (Hs2 : 0 <= shr_m mrs2) by (rewrite Hm2; apply Z.div_pos; lia).
  assert (He2' : e2 <= E).
  { rewrite He2. unfold fexp, emin, prec, emax in *. lia. }
  destruct (shr_m mrs2) as [|m|m]; [by left | | lia].
  right. exists m, e2.
  replace (e2 <=? emax - prec) with true by (symmetry; apply Z.leb_le; lia).
  done.
Qed.

(** A mantissa of full width is left as it is. *)
Lemma binary_round_aux_exact s m e :
  Z.pos (digits2_pos m) = prec ->
  emin <= e <= emax - prec ->
  binary_round_aux prec emax s (Z.pos m) e loc_Exact = S754_finite s m e.
Proof.
  intros Hd He. unfold binary_round_aux, shr_fexp. cbn [Zdigits2].
  rewrite Hd.
  replace (fexp prec emax (prec + e) - e) with 0
    by (unfold fexp, emin, prec, emax in *; lia).
  cbn [shr shr_record_of_loc shr_m loc_of_shr_record round_nearest_even
       Zdigits2].
  rewrite Hd.
  replace (fexp prec emax (prec + e) - e) with 0
    by (unfold fexp, emin, prec, emax in *; lia).
  cbn [shr shr_m].
  by replace (e <=? emax - prec) with true by (symmetry; apply Z.leb_le; lia).
Qed.

(** [float64] of a positive integer of at most 53 bits is that integer:
    the mantissa shifted to full width, the exponent set accordingly. *)
Lemma binary_normalize_pos p :
  Z.pos (digits2_pos p) <= prec ->
  exists m e,
    binary_normalize prec emax (Z.pos p) 0 false = S754_finite false m e
    /\ Z.pos (digits2_pos m) = prec
    /\ e = Z.pos (digits2_pos p) - prec.
Proof.
  intros Hk. cbn [binary_normalize]. unfold binary_round, shl_align.
  replace (fexp prec emax (Z.pos (digits2_pos p) + 0) - 0)
    with (Z.pos (digits2_pos p) - prec)
    by (unfold fexp, emin, prec, emax in *; lia).
  replace (fexp prec emax (Z.pos (digits2_pos p) + 0))
    with (Z.pos (digits2_pos p) - prec)
    by (unfold fexp, emin, prec, emax in *; lia).
  destruct (Z.pos (digits2_pos p) - prec) as [|d|d] eqn:Hd; [| lia |].
  - exists p, 0. split_and!; [|lia|done].
    apply binary_round_aux_exact; [lia|]. unfold emin, prec, emax. lia.
  - exists (Pos.iter xO p d), (Z.neg d).
    assert (Hfull : Z.pos (digits2_pos (Pos.iter xO p d)) = prec)
      by (rewrite digits_iter_xO; lia).
    split_and!; [|done|done].
    apply binary_round_aux_exact; [done|].
    unfold emin, prec, emax in *. lia.
Qed.

(** *** Conversions, quotient and product *)

Lemma valid_digits m e : valid_binary (S754_finite false m e) = true ->
  Z.pos m < 2 ^ prec.
Proof.
  unfold valid_binary, bounded, canonical_mantissa.
  intros [Hc _]%andb_true_iff. apply Z.eqb_eq in Hc.
  pose proof (digits_pos_lt m) as Hlt.
  apply Z.lt_le_trans with (2 ^ Z.pos (digits2_pos m)); [done|].
  apply Z.pow_le_mono_r; [lia|]. unfold fexp in Hc. lia.
Qed.

Lemma float64_of_int_zero : Prim2SF (float64_of_int 0) = S754_zero false.
Proof. unfold float64_of_int. by apply Prim2SF_SF2Prim. Qed.

Lemma float64_of_int_pos z :
  0 < z < 2 ^ prec ->
  exists m,
    Prim2SF (float64_of_int z) = S754_finite false m (Zdigits2 z - prec)
    /\ Z.pos (digits2_pos m) = prec.
Proof.
  intros Hz. pose proof (digits_le z prec) as Hk.
  destruct z as [|p|p]; [lia | | lia]. cbn [Zdigits2] in *.
  destruct (binary_normalize_pos p) as (m & e & Hn & Hd & ->);
    [apply Hk; [done | lia]|].
  exists m. split; [|done].
  unfold float64_of_int. rewrite Hn. apply Prim2SF_SF2Prim.
  unfold valid_binary, bounded, canonical_mantissa. rewrite Hd.
  pose proof (Pos2Z.is_pos (digits2_pos p)).
  apply andb_true_iff. split; [apply Z.eqb_eq | apply Z.leb_le];
    unfold fexp, emin, prec, emax in *; lia.
Qed.

Lemma SFdiv_bound mb eb md ed :
  Z.pos (digits2_pos mb) = prec ->
  Z.pos (digits2_pos md) = prec ->
  - prec < eb <= 0 -> - prec < ed <= 0 ->
  SFdiv prec emax (S754_finite false mb eb) (S754_finite false md ed)
  = S754_zero false
  \/ exists m e,
       SFdiv prec emax (S754_finite false mb eb) (S754_finite false md ed)
       = S754_finite false m e
       /\ e <= eb - ed - 51.
Proof.
  intros Hb Hd Heb Hed. unfold SFdiv, SFdiv_core_binary. cbn [Zdigits2 xorb].
  rewrite Hb, Hd.
  replace (Z.min (fexp prec emax (prec + eb - (prec + ed))) (eb - ed))
    with (eb - ed - prec)
    by (unfold fexp, emin, prec, emax in *; lia).
  replace (eb - ed - (eb - ed - prec)) with 53 by (unfold prec; lia).
  pose proof (Z_div_mod (Z.shiftl (Z.pos mb) 53) (Z.pos md)) as Hdiv.
  destruct (Z.div_eucl (Z.shiftl (Z.pos mb) 53) (Z.pos md)) as [q r].
  destruct Hdiv as [Heq Hr]; [lia|].
  rewrite Z.shiftl_mul_pow2 in Heq by lia.
  pose proof (digits_pos_lt mb) as Hmb. rewrite Hb in Hmb.
  pose proof (digits_pos_ge md) as Hmd. rewrite Hd in Hmd.
  unfold prec in Hmb, Hmd.
  assert (Hq : 0 <= q < 2 ^ 54).
  { change (2 ^ 53) with 9007199254740992 in *.
    change (2 ^ (53 - 1)) with 4503599627370496 in *.
    change (2 ^ 54) with 18014398509481984. nia. }
  apply binary_round_aux_bound; [lia | | | |];
    try (unfold emin, prec, emax in *; lia).
  pose proof (digits_le q 54). unfold prec in *. lia.
Qed.

Lemma SFmul_bound ma ea mq eq E :
  Z.pos ma < 2 ^ prec -> Z.pos mq < 2 ^ prec ->
  ea + eq + 54 <= E -> emin <= E -> E <= emax - prec ->
  SFmul prec emax (S754_finite false ma ea) (S754_finite false mq eq)
  = S754_zero false
  \/ exists m e,
       SFmul prec emax (S754_finite false ma ea) (S754_finite false mq eq)
       = S754_finite false m e
       /\ e <= E.
Proof.
  intros Ha Hq HE Hemin Hemax. unfold SFmul. cbn [xorb].
  assert (Hd : Zdigits2 (Z.pos (ma * mq)) <= 106).
  { apply digits_le; [lia|]. unfold prec in *.
    change (2 ^ 53) with 9007199254740992 in *.
    change (2 ^ 106) with (9007199254740992 * 9007199254740992). nia. }
  apply binary_round_aux_bound; lia.
Qed.

(** A nonnegative [float64] with a small exponent converts to a
    nonnegative [int], whatever the platform does with values that
    [int] cannot represent. *)
Lemma int_of_float64_nonneg unrep f m e :
  Prim2SF f = S754_finite false m e -> e <= 9 ->
  0 <= int_of_float64 unrep f.
Proof.
  intros Hf He. unfold int_of_float64. rewrite Hf.
  pose proof (Prim2SF_valid f) as Hv. rewrite Hf in Hv.
  apply valid_digits in Hv. unfold prec in Hv.
  set (a := if 0 <=? e then Z.shiftl (Z.pos m) e else Z.shiftr (Z.pos m) (- e)).
  assert (Ha : 0 <= a < 2 ^ 62).
  { subst a. destruct (0 <=? e) eqn:H0.
    - apply Z.leb_le in H0. rewrite Z.shiftl_mul_pow2 by done.
      assert (2 ^ e <= 2 ^ 9) by (apply Z.pow_le_mono_r; lia).
      assert (0 < 2 ^ e) by (apply Z.pow_pos_nonneg; lia).
      change (2 ^ 53) with 9007199254740992 in *.
      change (2 ^ 9) with 512 in *.
      change (2 ^ 62) with 4611686018427387904. nia.
    - apply Z.leb_gt in H0. rewrite Z.shiftr_div_pow2 by lia.
      assert (0 < 2 ^ (- e)) by (apply Z.pow_pos_nonneg; lia).
      split; [apply Z.div_pos; lia|].
      apply Z.div_lt_upper_bound; [done|].
      change (2 ^ 53) with 9007199254740992 in *.
      change (2 ^ 62) with 4611686018427387904. nia. }
  replace ((GoInt.int_min <=? a) && (a <=? GoInt.int_max)) with true; [lia|].
  symmetry. apply andb_true_iff.
  unfold GoInt.int_min, GoInt.int_max. split; apply Z.leb_le; lia.
Qed.

(** The cursor formula on modest operands: a positive content extent, a
    nonnegative first visible offset and a positive divisor, all below
    [2^30], give a nonnegative cursor. *)
Lemma cursor_formula_nonneg unrep a b d :
  0 < a < 2 ^ 30 -> 0 <= b < 2 ^ 30 -> 0 < d < 2 ^ 30 ->
  0 <= int_of_float64 unrep
         (PrimFloat.mul (float64_of_int a)
            (PrimFloat.div (float64_of_int b) (float64_of_int d))).
Proof.
  intros Ha Hb Hd.
  assert (Hp : 2 ^ 30 < 2 ^ prec) by done.
  destruct (float64_of_int_pos a) as (ma & HA & Hma); [lia|].
  destruct (float64_of_int_pos d) as (md & HD & Hmd); [lia|].
  pose proof (digits_le a 30) as Hka. pose proof (digits_nonneg a).
  pose proof (digits_le b 30) as Hkb. pose proof (digits_nonneg b).
  pose proof (digits_le d 30) as Hkd.
  assert (Hkd1 : 1 <= Zdigits2 d) by (destruct d; simpl; lia).
  assert (Hka1 : 1 <= Zdigits2 a) by (destruct a; simpl; lia).
  set (Q := PrimFloat.div (float64_of_int b) (float64_of_int d)).
  assert (HQ : Prim2SF Q = S754_zero false
               \/ exists m e, Prim2SF Q = S754_finite false m e
                              /\ e <= Zdigits2 b - Zdigits2 d - 51).
  { unfold Q. rewrite div_spec, HD. unfold SF64div.
    destruct (Z.eq_dec b 0) as [-> | Hb0].
    - left. by rewrite float64_of_int_zero.
    - destruct (float64_of_int_pos b) as (mb & HB & Hmb); [lia|].
      assert (Hkb1 : 1 <= Zdigits2 b) by (destruct b; simpl; lia).
      rewrite HB.
      destruct (SFdiv_bound mb (Zdigits2 b - prec) md (Zdigits2 d - prec))
        as [Hz | (m & e & Hq & He)]; try done; try (unfold prec; lia).
      + by left.
      + right. exists m, e. split; [done|]. unfold prec in *. lia. }
  destruct HQ as [HQ | (mq & eq & HQ & Heq)].
  - unfold int_of_float64. rewrite mul_spec, HA, HQ. by simpl.
  - pose proof (Prim2SF_valid Q) as Hvq. rewrite HQ in Hvq.
    apply valid_digits in Hvq.
    pose proof (Prim2SF_valid (float64_of_int a)) as Hva. rewrite HA in Hva.
    apply valid_digits in Hva.
    destruct (SFmul_bound ma (Zdigits2 a - prec) mq eq 9)
      as [Hz | (m & e & Hm & He)]; try done;
      try (unfold emin, prec, emax in *; lia).
    + unfold int_of_float64. rewrite mul_spec, HA, HQ.
      unfold SF64mul. by rewrite Hz.
    + apply (int_of_float64_nonneg unrep _ m e); [|done].
      rewrite mul_spec, HA, HQ. exact Hm.
Qed.

End GoFloatFacts.

(** ** The item list: RemoveItem, AddItemAtIndex, Focus *)

Section ItemList.

Context {B : Type}.
Implicit Types (f : ScrollView B) (its : list scrollItem) (p : Primitive).

(** After the iterations for indices [n-1 .. 0], the first [n] items
    are filtered and the others are as they were. *)
Lemma RemoveItem_loop_filter n p its :
  (n <= length its)%nat ->
  RemoveItem_loop n p its
  = Some (filter (fun it => Item it <> p) (take n its) ++ drop n its).
Proof.
  revert its. induction n as [|index IH]; intros its Hn; simpl.
  - by rewrite drop_0.
  - destruct (lookup_lt_is_Some_2 its index) as [it Hit]; [lia|].
    rewrite Hit, (take_S_r _ _ _ Hit), filter_app.
    case_decide as Hp.
    + rewrite IH by (rewrite length_app, length_take, length_drop; lia).
      rewrite take_app_length', drop_app_length'
        by (rewrite length_take; lia).
      rewrite filter_cons_False by (intros Hne; by apply Hne).
      by rewrite filter_nil, app_nil_r.
    + rewrite IH by lia.
      rewrite filter_cons_True by done.
      rewrite filter_nil, <- app_assoc. simpl.
      by rewrite (drop_S _ _ _ Hit).
Qed.

Lemma Focus_loop_skip l1 its :
  Forall declinesFocus l1 -> Focus_loop (l1 ++ its) = Focus_loop its.
Proof.
  induction 1 as [|it l1 Hit _ IH]; [done|]. simpl.
  destruct Hit as [-> | ->]; [done|]. by destruct (Item it).
Qed.

Lemma Focus_loop_at_most_once its : (length (Focus_loop its) <= 1)%nat.
Proof.
  induction its as [|it its IH]; simpl; [lia|].
  destruct (Item it); [destruct (Focus it)|]; simpl; lia.
Qed.

End ItemList.

(** ** Facts on Draw *)

Section DrawFacts.

Context {B : Type} {HB : BoxAPI B} {W : Type} {HW : PrimitiveAPI W}.
Variable Styles : Theme.
Variable unrep : PrimFloat.float -> Z.
Import GoInt GoIntFacts.

Implicit Types (f : ScrollView B) (its : list scrollItem) (w : W).

(** *** Sums of sizes *)

Lemma sumAbs_nonneg its : 0 <= sumAbs its.
Proof. induction its; simpl; lia. Qed.

Lemma sumSizes_abs its : Z.abs (sumSizes its) <= sumAbs its.
Proof. induction its; simpl; lia. Qed.

Lemma sumSizes_app l1 l2 : sumSizes (l1 ++ l2) = sumSizes l1 + sumSizes l2.
Proof. induction l1; simpl; lia. Qed.

Lemma sumAbs_app l1 l2 : sumAbs (l1 ++ l2) = sumAbs l1 + sumAbs l2.
Proof. induction l1; simpl; lia. Qed.

Lemma sumAbs_take n its : sumAbs (take n its) <= sumAbs its.
Proof.
  rewrite <- (take_drop n its) at 2. rewrite sumAbs_app.
  pose proof (sumAbs_nonneg (drop n its)). lia.
Qed.

Lemma contentHeight_from acc its :
  Z.abs acc + sumAbs its <= 2 ^ 61 ->
  fold_left (fun a it => add a (FixedSize it)) its acc = acc + sumSizes its.
Proof.
  revert acc. induction its as [|it its IH]; intros acc Hb; simpl in *.
  - lia.
  - pose proof (sumAbs_nonneg its).
    rewrite add_exact by (unfold in_range, int_min, int_max; lia).
    rewrite IH by lia. lia.
Qed.

Lemma contentHeight_exact its :
  sizes_small its -> contentHeight its = sumSizes its.
Proof.
  unfold sizes_small, contentHeight. intros Hs.
  rewrite contentHeight_from by (simpl; lia). lia.
Qed.

Lemma sizes_small_sum its : sizes_small its -> small (sumSizes its).
Proof.
  unfold sizes_small, small. pose proof (sumSizes_abs its). lia.
Qed.

Lemma contentHeight_in_range its : in_range (contentHeight its).
Proof.
  unfold contentHeight.
  assert (Hgen : forall acc, in_range acc ->
            in_range (fold_left (fun a it => add a (FixedSize it)) its acc)).
  { induction its as [|it its IH]; intros acc Hacc; simpl; [done|].
    apply IH, wrap_range. }
  apply Hgen. unfold in_range, int_min, int_max. lia.
Qed.

(** *** The item loop *)

Lemma scrollBarRows_app t1 t2 :
  scrollBarRows (t1 ++ t2) = scrollBarRows t1 ++ scrollBarRows t2.
Proof. apply omap_app. Qed.

Lemma scrollBarCursors_app t1 t2 :
  scrollBarCursors (t1 ++ t2) = scrollBarCursors t1 ++ scrollBarCursors t2.
Proof. apply omap_app. Qed.

Lemma cellsWritten_app t1 t2 :
  cellsWritten (t1 ++ t2) = cellsWritten t1 ++ cellsWritten t2.
Proof. apply omap_app. Qed.

(** The loop talks to the children only. *)
Lemma drawItems_children_only x y width s show its pos ps fv w :
  let r := drawItems x y width s show its pos ps fv w in
  scrollBarRows (lr_events r) = []
  /\ scrollBarCursors (lr_events r) = []
  /\ cellsWritten (lr_events r) = [].
Proof.
  revert pos ps fv w. induction its as [|it its IH]; intros pos ps fv w; simpl.
  - done.
  - destruct ((ps <? add y s) && show); [apply IH|].
    destruct (Item it) as [p|]; [|done].
    destruct (Primitive_HasFocus _ _); simpl; apply IH.
Qed.

Lemma deferred_children_only defs w :
  scrollBarRows (runDeferred defs w).2 = []
  /\ scrollBarCursors (runDeferred defs w).2 = []
  /\ cellsWritten (runDeferred defs w).2 = [].
Proof.
  unfold runDeferred. simpl. induction (rev defs); simpl; done.
Qed.

Lemma fillRemaining_no_bar x y width vh pos :
  scrollBarRows (fillRemaining Styles x y width vh pos) = []
  /\ scrollBarCursors (fillRemaining Styles x y width vh pos) = [].
Proof.
  unfold fillRemaining. destruct (pos <? add y vh); [|done].
  induction (for_lt pos (add y vh)) as [|i rows IH]; simpl; [done|].
  rewrite scrollBarRows_app, scrollBarCursors_app.
  destruct IH as [-> ->]. rewrite !app_nil_r.
  induction (for_lt 0 (width - x)); simpl; done.
Qed.

(** No item is a nil primitive: the loop returns. *)
Lemma drawItems_returns x y width s show its pos ps fv w :
  Forall (fun it => Item it <> None) its ->
  lr_outcome (drawItems x y width s show its pos ps fv w) = Returned.
Proof.
  intros Hall. revert pos ps fv w.
  induction Hall as [|it its Hit _ IH]; intros pos ps fv w; simpl; [done|].
  destruct ((ps <? add y s) && show); [apply IH|].
  destruct (Item it) as [p|]; [|done].
  destruct (Primitive_HasFocus _ _); simpl; apply IH.
Qed.

(** Nothing is skipped and some item is nil: the loop panics. *)
Lemma drawItems_panics x y width s its pos ps fv w :
  Exists (fun it => Item it = None) its ->
  lr_outcome (drawItems x y width s false its pos ps fv w) = Panicked.
Proof.
  intros Hex. revert pos ps fv w.
  induction its as [|it its IH]; intros pos ps fv w; [by inversion Hex|].
  simpl. rewrite andb_false_r.
  destruct (Item it) as [p|] eqn:Hit; [|done].
  assert (Hrest : Exists (fun it => Item it = None) its).
  { inversion Hex as [? ? Hnil|]; [congruence | done]. }
  destruct (Primitive_HasFocus _ _); simpl; by apply IH.
Qed.

(** Items that start below the offset are passed over: only the
    scrolled position advances. *)
Lemma drawItems_skip x y width s l1 its pos ps fv w :
  in_range (y + s) ->
  (forall n, (n <= length l1)%nat -> in_range (ps + sumSizes (take n l1))) ->
  (forall n, (n < length l1)%nat -> ps + sumSizes (take n l1) < y + s) ->
  drawItems x y width s true (l1 ++ its) pos ps fv w
  = drawItems x y width s true its pos (ps + sumSizes l1) fv w.
Proof.
  intros Hys. revert ps.
  induction l1 as [|it l1 IH]; intros ps Hrange Hbelow; simpl.
  - f_equal; lia.
  - rewrite (add_exact y s) by done.
    pose proof (Hbelow 0%nat ltac:(simpl; lia)) as Hlt. simpl in Hlt.
    pose proof (Hrange 1%nat ltac:(simpl; lia)) as Hr1. simpl in Hr1.
    replace (ps <? y + s) with true by (symmetry; apply Z.ltb_lt; lia).
    simpl. rewrite add_exact by (by rewrite Z.add_0_r in Hr1).
    rewrite IH.
    + f_equal; lia.
    + intros n Hn. specialize (Hrange (S n) ltac:(simpl; lia)).
      simpl in Hrange. by rewrite Z.add_assoc in Hrange.
    + intros n Hn. specialize (Hbelow (S n) ltac:(simpl; lia)).
      simpl in Hbelow. by rewrite Z.add_assoc in Hbelow.
Qed.

(** *** The frame *)

(** Names the outcome of the deferred draws in a goal about [drawInner]
    and records that they are draws of children. *)
Ltac open_deferred Hrows Hcurs Hcells :=
  match goal with
  | |- context [runDeferred ?d ?w0] =>
      pose proof (deferred_children_only d w0) as (Hrows & Hcurs & Hcells);
      destruct (runDeferred d w0) as [? ?]; simpl in Hrows, Hcurs, Hcells
  end.

Lemma scrollBarRows_bar v xx (fy : Z -> Z) vh ch cur hf col (l : list Z) :
  scrollBarRows
    (map (fun printed => EvRenderScrollBar v xx (fy printed) vh ch cur printed hf col) l)
  = l.
Proof. induction l as [|a l IH]; simpl; [done|]. by rewrite IH. Qed.

Lemma scrollBarCursors_bar v xx (fy : Z -> Z) vh ch cur hf col (l : list Z) :
  Forall (fun c => c = cur)
    (scrollBarCursors
       (map (fun printed => EvRenderScrollBar v xx (fy printed) vh ch cur printed hf col) l)).
Proof. induction l as [|a l IH]; simpl; by constructor. Qed.

Lemma cellsWritten_bar v xx (fy : Z -> Z) vh ch cur hf col (l : list Z) :
  cellsWritten
    (map (fun printed => EvRenderScrollBar v xx (fy printed) vh ch cur printed hf col) l)
  = [].
Proof. induction l as [|a l IH]; simpl; done. Qed.

Lemma Draw_visible f screen w x y width vh :
  Box_GetVisible (Box f) = true ->
  Box_GetInnerRect (drawBox f screen) = (x, y, width, vh) ->
  Draw Styles unrep f screen w
  = drawInner Styles unrep f (drawBox f screen) x y width vh w.
Proof. intros Hv Hr. unfold Draw. by rewrite Hv, Hr. Qed.

Lemma Draw_invisible f screen w :
  Box_GetVisible (Box f) = false ->
  Draw Styles unrep f screen w
  = {| dr_view := f; dr_world := w; dr_trace := []; dr_outcome := Returned |}.
Proof. intros Hv. unfold Draw. by rewrite Hv. Qed.

(** What the frame leaves in the view: the box and the re-clamped
    offset, also when the loop panics. *)
Lemma drawInner_view f box1 x y width vh w :
  dr_view (drawInner Styles unrep f box1 x y width vh w)
  = set_heightOffset
      (clampOffset y vh (contentHeight (items f)) (heightOffset f))
      (set_Box box1 f).
Proof.
  unfold drawInner. destruct (runDeferred _ _) as [wd deferred].
  by destruct (lr_outcome _).
Qed.

Lemma drawInner_outcome f box1 x y width vh w :
  let ch := contentHeight (items f) in
  let show := showVerticalScrollBar (scrollBarVisibility f) ch vh in
  dr_outcome (drawInner Styles unrep f box1 x y width vh w)
  = lr_outcome
      (drawItems x y (if (width >? 0) && show then sub width 1 else width)
         (clampOffset y vh ch (heightOffset f)) show (items f) y y (-1) w).
Proof.
  simpl. unfold drawInner. destruct (runDeferred _ _) as [wd deferred].
  by destruct (lr_outcome _).
Qed.


(** The rows of the scroll bar: all of the viewport's when the bar is
    shown and the loop returns, none otherwise. *)
Lemma drawInner_rows f box1 x y width vh w :
  let ch := contentHeight (items f) in
  let show := showVerticalScrollBar (scrollBarVisibility f) ch vh in
  scrollBarRows (dr_trace (drawInner Styles unrep f box1 x y width vh w))
  = match dr_outcome (drawInner Styles unrep f box1 x y width vh w) with
    | Returned => if show then for_lt 0 vh else []
    | Panicked => []
    end.
Proof.
  simpl. unfold drawInner. open_deferred Hrows Hcurs Hcells.
  destruct (lr_outcome _); simpl.
  - rewrite !scrollBarRows_app, Hrows.
    rewrite (proj1 (drawItems_children_only _ _ _ _ _ _ _ _ _ _)).
    rewrite (proj1 (fillRemaining_no_bar _ _ _ _ _)). simpl.
    destruct (showVerticalScrollBar _ _ _); simpl; [|done].
    by rewrite scrollBarRows_bar, app_nil_r.
  - rewrite !scrollBarRows_app, Hrows.
    by rewrite (proj1 (drawItems_children_only _ _ _ _ _ _ _ _ _ _)).
Qed.

(** Every cursor handed to [RenderScrollBar] is at most the content
    height: the only clamp is the upper one. *)
Lemma drawInner_cursors f box1 x y width vh w :
  Forall (fun c => c <= contentHeight (items f))
    (scrollBarCursors (dr_trace (drawInner Styles unrep f box1 x y width vh w))).
Proof.
  unfold drawInner. open_deferred Hrows Hcurs Hcells.
  destruct (lr_outcome _); simpl.
  - rewrite !scrollBarCursors_app, Hcurs.
    rewrite (proj1 (proj2 (drawItems_children_only _ _ _ _ _ _ _ _ _ _))).
    rewrite (proj2 (fillRemaining_no_bar _ _ _ _ _)). simpl.
    rewrite app_nil_r.
    destruct (showVerticalScrollBar _ _ _); simpl; [|done].
    eapply Forall_impl; [apply scrollBarCursors_bar|].
    intros c ->. unfold cursorOf.
    destruct (cursorRaw _ _ _ _ _ >? _) eqn:Hc; lia.
  - rewrite !scrollBarCursors_app, Hcurs.
    by rewrite (proj1 (proj2 (drawItems_children_only _ _ _ _ _ _ _ _ _ _))).
Qed.

(** The cells written by the frame itself are those of the fill. *)
Lemma fillRemaining_column x y width vh pos :
  Forall (fun c => c.1 = x) (cellsWritten (fillRemaining Styles x y width vh pos)).
Proof.
  unfold fillRemaining. destruct (pos <? add y vh); [|done].
  assert (Hrow : forall i r st (l : list Z),
            Forall (fun c => c.1 = x)
              (cellsWritten (map (fun _ => EvSetContent x i r st) l))).
  { intros i r st l. induction l; simpl; by constructor. }
  induction (for_lt pos (add y vh)) as [|i rows IH]; simpl; [done|].
  rewrite cellsWritten_app. apply Forall_app. split; [apply Hrow | done].
Qed.

Lemma drawInner_cells f box1 x y width vh w :
  Forall (fun c => c.1 = x)
    (cellsWritten (dr_trace (drawInner Styles unrep f box1 x y width vh w))).
Proof.
  unfold drawInner. open_deferred Hrows Hcurs Hcells.
  destruct (lr_outcome _); simpl.
  - rewrite !cellsWritten_app, Hcells.
    rewrite (proj2 (proj2 (drawItems_children_only _ _ _ _ _ _ _ _ _ _))).
    simpl. rewrite app_nil_r. apply Forall_app. split.
    + apply fillRemaining_column.
    + destruct (negb _); [done|]. by rewrite cellsWritten_bar.
  - rewrite !cellsWritten_app, Hcells.
    by rewrite (proj2 (proj2 (drawItems_children_only _ _ _ _ _ _ _ _ _ _))).
Qed.

(** *** The re-clamping of the offset *)

Lemma clampOffset_exact y vh ch k :
  small y -> small vh -> small ch -> small k ->
  clampOffset y vh ch k = if vh <? ch then Z.min k (ch - vh) else k.
Proof.
  unfold small, clampOffset. intros Hy Hvh Hch Hk.
  rewrite !add_exact, sub_exact
    by (unfold in_range, int_min, int_max;
        rewrite ?add_exact by (unfold in_range, int_min, int_max; lia); lia).
  rewrite Z.gtb_ltb.
  destruct (vh <? ch) eqn:Hlt; simpl; [|done].
  rewrite Z.gtb_ltb.
  destruct (y + ch <? y + k + vh) eqn:Hgt; lia.
Qed.

End DrawFacts.

(** ** The kinds of events of a frame *)

Section DrawMore.

Context {B : Type} {HB : BoxAPI B} {W : Type} {HW : PrimitiveAPI W}.
Variable Styles : Theme.
Variable unrep : PrimFloat.float -> Z.

Implicit Types (f : ScrollView B) (its : list scrollItem) (w : W).

Lemma omap_all_None {A C} (g : A -> option C) (l : list A) :
  Forall (fun e => g e = None) l -> omap g l = [].
Proof. induction 1 as [|e l He _ IH]; simpl; [done|]. by rewrite He. Qed.

(** What each kind of event shows to each observation. *)
Lemma child_events_obs (l : list event) :
  Forall (fun e => isChildEvent e = true) l ->
  scrollBarRows l = [] /\ scrollBarCursors l = [] /\ scrollBarCells l = []
  /\ cellsWritten l = [].
Proof.
  intros Hl. split_and!; apply omap_all_None;
    (eapply Forall_impl; [exact Hl|]); by intros [].
Qed.

Lemma fill_events_obs (l : list event) :
  Forall (fun e => isFillEvent e = true) l ->
  setRects l = [] /\ drawn l = [] /\ touched l = [] /\ scrollBarCells l = [].
Proof.
  intros Hl. split_and!; apply omap_all_None;
    (eapply Forall_impl; [exact Hl|]); by intros [].
Qed.

Lemma bar_events_obs (l : list event) :
  Forall (fun e => isBarEvent e = true) l ->
  setRects l = [] /\ drawn l = [] /\ touched l = [] /\ cellsWritten l = [].
Proof.
  intros Hl. split_and!; apply omap_all_None;
    (eapply Forall_impl; [exact Hl|]); by intros [].
Qed.

Lemma fillRemaining_kind x y width vh pos :
  Forall (fun e => isFillEvent e = true) (fillRemaining Styles x y width vh pos).
Proof.
  unfold fillRemaining. destruct (pos <? GoInt.add y vh); [|done].
  apply Forall_flat_map, Forall_forall. intros i _.
  by apply Forall_fmap, Forall_forall.
Qed.

Lemma drawItems_kind x y width s show its pos ps fv w :
  Forall (fun e => isChildEvent e = true)
    (lr_events (drawItems x y width s show its pos ps fv w)).
Proof.
  revert pos ps fv w. induction its as [|it its IH]; intros pos ps fv w; simpl.
  - done.
  - destruct ((ps <? GoInt.add y s) && show); [apply IH|].
    destruct (Item it) as [p|]; [|done].
    destruct (Primitive_HasFocus _ _); simpl; repeat constructor; apply IH.
Qed.

Lemma deferred_obs (defs : list Prim) :
  setRects (map EvDraw defs) = [] /\ drawn (map EvDraw defs) = defs
  /\ touched (map EvDraw defs) = defs
  /\ Forall (fun e => isChildEvent e = true) (map EvDraw defs).
Proof.
  induction defs as [|p defs (IH1 & IH2 & IH3 & IH4)]; simpl; [done|].
  rewrite IH1, IH2, IH3. split_and!; try done. by constructor.
Qed.

(** The whole trace of a frame: the box, the item loop, then (unless the
    loop panicked) the fill and the scroll bar, then the deferred draws. *)
Lemma drawInner_trace f box1 x y width vh w :
  let ch := contentHeight (items f) in
  let show := showVerticalScrollBar (scrollBarVisibility f) ch vh in
  let width1 := if (width >? 0) && show then GoInt.sub width 1 else width in
  let r := drawItems x y width1 (clampOffset y vh ch (heightOffset f)) show
             (items f) y y (-1) w in
  exists bar,
    dr_trace (drawInner Styles unrep f box1 x y width vh w)
    = EvBoxDraw
        :: lr_events r
        ++ match lr_outcome r with
           | Panicked => []
           | Returned => fillRemaining Styles x y width1 vh (lr_pos r) ++ bar
           end
        ++ map EvDraw (rev (lr_deferred r))
    /\ Forall (fun e => isBarEvent e = true) bar
    /\ (lr_outcome r = Returned ->
        scrollBarCells bar
        = if show
          then map (fun printed => (GoInt.add x width1, GoInt.add y printed))
                 (for_lt 0 vh)
          else []).
Proof.
  simpl. unfold drawInner, runDeferred.
  destruct (lr_outcome _); simpl.
  - eexists. rewrite <- app_assoc. split_and!; [done | |].
    + destruct (negb _); [done|]. by apply Forall_fmap, Forall_forall.
    + intros _. destruct (showVerticalScrollBar _ _ _); simpl; [|done].
      induction (for_lt 0 vh) as [|i l IH]; simpl; [done|]. by rewrite IH.
  - exists []. by split_and!.
Qed.

End DrawMore.

(** ** Facts on the mouse handler *)

Section MouseFacts.

Context {B : Type} {HB : BoxAPI B} {W : Type} {HW : PrimitiveAPI W}.
Implicit Types (f : ScrollView B) (its : list scrollItem) (w : W).

(** The forwarding loop stops at the first child that takes the event;
    it has then asked the non-nil children before it, who all declined.
    When nobody takes the event every non-nil child was asked. *)
Lemma forwardMouse_first_consumer action event its capture0 w :
  let '(consumed, capture, w', calls) :=
    forwardMouse action event its capture0 w in
  answered action event w calls
  /\ ((consumed = true
       /\ exists l1 item l2 p calls0,
            its = l1 ++ item :: l2
            /\ Item item = Some p
            /\ calls = calls0 ++ [{| cc_child := p; cc_consumed := true;
                                    cc_capture := capture |}]
            /\ map cc_child calls0 = omap Item l1
            /\ allDeclined calls0)
      \/ (consumed = false
          /\ map cc_child calls = omap Item its
          /\ allDeclined calls)).
Proof.
  revert capture0 w.
  induction its as [|item its IH]; intros capture0 w; simpl.
  - split; [done|]. right. split_and!; [done | done | constructor].
  - destruct (Item item) as [p|] eqn:Hitem.
    + destruct (Primitive_MouseHandler p action event w)
        as [[consumed capture1] w1] eqn:Hcall.
      destruct consumed.
      * split; [simpl; by rewrite Hcall|].
        left. split; [done|].
        exists [], item, its, p, [].
        split_and!; [done | done | done | done | constructor].
      * specialize (IH capture1 w1).
        destruct (forwardMouse action event its capture1 w1)
          as [[[c cap] w2] calls].
        destruct IH as [Hans Hcases].
        split; [simpl; by rewrite Hcall|].
        destruct Hcases as [[-> (l1 & it & l2 & q & calls0 & -> & Hq & -> & Hmap & Hdecl)]
                           | [-> [Hmap Hdecl]]].
        -- left. split; [done|].
           exists (item :: l1), it, l2, q,
             ({| cc_child := p; cc_consumed := false; cc_capture := capture1 |}
                :: calls0).
           split_and!; [done | done | done | | by constructor].
           simpl. by rewrite Hitem, Hmap.
        -- right. split_and!; [done | | by constructor].
           simpl. by rewrite Hmap.
    + specialize (IH capture0 w).
      destruct (forwardMouse action event its capture0 w)
        as [[[c cap] w2] calls].
      destruct IH as [Hans Hcases]. split; [done|].
      destruct Hcases as [[-> (l1 & it & l2 & q & calls0 & -> & Hq & -> & Hmap & Hdecl)]
                         | [-> [Hmap Hdecl]]].
      * left. split; [done|].
        exists (item :: l1), it, l2, q, calls0.
        split_and!; [done | done | done | | done]. simpl. by rewrite Hitem.
      * right. by split_and!.
Qed.

End MouseFacts.

(** * The claims *)

Import GoInt GoIntFacts.

(** The offset a frame leaves behind, without overflow: bounded above by
    the room the content has beyond the viewport, when there is any. *)
Lemma Draw_offset {B} {HB : BoxAPI B} {W} {HW : PrimitiveAPI W}
    (Styles : Theme) (unrep : PrimFloat.float -> Z)
    (f : ScrollView B) (screen : Screen) (w : W) (x y width vh : Z) :
  Box_GetVisible (Box f) = true ->
  Box_GetInnerRect (drawBox f screen) = (x, y, width, vh) ->
  small y -> small vh -> small (heightOffset f) -> sizes_small (items f) ->
  heightOffset (dr_view (Draw Styles unrep f screen w))
  = if vh <? sumSizes (items f)
    then Z.min (heightOffset f) (sumSizes (items f) - vh)
    else heightOffset f.
Proof.
  intros Hvis Hrect Hy Hvh Hoff Hsizes.
  rewrite (Draw_visible _ _ _ _ _ x y width vh) by done.
  rewrite drawInner_view. simpl.
  rewrite contentHeight_exact by done.
  apply clampOffset_exact; try done. by apply sizes_small_sum.
Qed.

(** ** C1: ScrollTo followed by Draw *)

(** C1, as stated, fails: [Draw] has no lower clamp, and its upper clamp
    is guarded by "content taller than the viewport".  With one item of
    size 3 in a viewport of height 10, [ScrollTo(5)] then [Draw] leaves
    the offset at 5 where the clamp formula gives 0; with content 30 in a
    viewport of 10, [ScrollTo(-5)] then [Draw] leaves -5 where the
    formula gives 0. *)
Lemma ScrollTo_Draw_offset_counterexample :
  heightOffset
    (dr_view (toyDraw (ScrollTo 5 0
       (mkView (plainBox 0 0 5 10) [mkItem 1 3 false] ScrollBarAuto 0)))) = 5
  /\ clamp 5 0 (Z.max 0 (sumSizes [mkItem 1 3 false] - 10)) = 0
  /\ heightOffset
       (dr_view (toyDraw (ScrollTo (-5) 0
          (mkView (plainBox 0 0 5 10) threeTens ScrollBarAlways 0)))) = -5
  /\ clamp (-5) 0 (Z.max 0 (sumSizes threeTens - 10)) = 0.
Proof. vm_compute. by split_and!. Qed.

(** C1 (amended): on a visible ScrollView, with magnitudes that do not
    overflow, [ScrollTo(k, _)] followed by [Draw] leaves the offset at
    [min(k, contentExtent - viewportExtent)] when the content is taller
    than the viewport and at [k] otherwise; so for [k >= 0] and content
    taller than the viewport it is
    [clamp(k, 0, max(0, contentExtent - viewportExtent))]. *)
Theorem ScrollTo_Draw_offset {B} {HB : BoxAPI B} {W} {HW : PrimitiveAPI W}
    (Styles : Theme) (unrep : PrimFloat.float -> Z)
    (f : ScrollView B) (k width0 : Z) (screen : Screen) (w : W)
    (x y width viewportExtent : Z) :
  Box_GetVisible (Box f) = true ->
  Box_GetInnerRect (drawBox f screen) = (x, y, width, viewportExtent) ->
  small y -> small viewportExtent -> small k -> sizes_small (items f) ->
  let contentExtent := sumSizes (items f) in
  let offset :=
    heightOffset (dr_view (Draw Styles unrep (ScrollTo k width0 f) screen w)) in
  offset = (if viewportExtent <? contentExtent
            then Z.min k (contentExtent - viewportExtent) else k)
  /\ (0 <= k -> viewportExtent < contentExtent ->
      offset = clamp k 0 (Z.max 0 (contentExtent - viewportExtent))).
Proof.
  intros Hvis Hrect Hy Hvh Hk Hsizes contentExtent offset.
  assert (Hoff : offset = if viewportExtent <? contentExtent
                          then Z.min k (contentExtent - viewportExtent) else k).
  { subst offset.
    by rewrite (Draw_offset _ _ _ _ _ x y width viewportExtent). }
  split; [done|].
  intros Hk0 Hlt. rewrite Hoff.
  replace (viewportExtent <? contentExtent) with true
    by (symmetry; by apply Z.ltb_lt).
  unfold clamp. lia.
Qed.

Lemma ScrollTo_Draw_offset_witness :
  heightOffset
    (dr_view (toyDraw (ScrollTo 25 0
       (mkView (plainBox 0 0 5 10) threeTens ScrollBarAuto 0))))
  = clamp 25 0 (Z.max 0 (sumSizes threeTens - 10)).
Proof.
  refine (proj2 (ScrollTo_Draw_offset toyStyles GoFloat.unrep_amd64
            (mkView (plainBox 0 0 5 10) threeTens ScrollBarAuto 0)
            25 0 toyScreen quietWorld 0 0 5 10 _ _ _ _ _ _) _ _);
    try reflexivity; unfold small, sizes_small; simpl; lia.
Defined.

(** ** C2: items above the offset are skipped *)

Section Skipping.

Context {B : Type} {HB : BoxAPI B} {W : Type} {HW : PrimitiveAPI W}.

Lemma clampOffset_bounds y vh ch k :
  small y -> small vh -> small ch -> small k ->
  - 2 ^ 61 <= clampOffset y vh ch k <= 2 ^ 61.
Proof.
  intros Hy Hvh Hch Hk. rewrite clampOffset_exact by done.
  unfold small in *. destruct (vh <? ch); lia.
Qed.





End Skipping.




(** ** C3: the divisor of the cursor formula *)

Section FirstVisible.

Context {B : Type} {HB : BoxAPI B} {W : Type} {HW : PrimitiveAPI W}.

(** The first visible position is set once: [-1] marks it as not set. *)
Lemma drawItems_firstVisible_kept x y width s show its pos ps fv (w : W) :
  fv <> -1 ->
  lr_firstVisibleY (drawItems x y width s show its pos ps fv w) = fv.
Proof.
  intros Hfv. revert pos ps w.
  induction its as [|it its IH]; intros pos ps w; simpl; [done|].
  destruct ((ps <? add y s) && show); [apply IH|].
  replace (fv =? -1) with false by (symmetry; by apply Z.eqb_neq).
  destruct (Item it) as [q|]; [|done].
  destruct (Primitive_HasFocus _ _); simpl; apply IH.
Qed.

(** With a nonnegative offset the first visible position, once an item
    has been laid out, lies between the top of the viewport and the end
    of the content. *)
Lemma drawItems_firstVisible_range x y width s bound its pos ps fv (w : W) :
  in_range (y + s) -> 0 <= s ->
  ps + sumAbs its <= y + bound ->
  Z.abs ps + sumAbs its <= 2 ^ 62 ->
  fv = -1 \/ y <= fv <= y + bound ->
  y <= fv <= y + bound
  \/ setRects (lr_events (drawItems x y width s true its pos ps fv w)) <> [] ->
  y <= lr_firstVisibleY (drawItems x y width s true its pos ps fv w)
    <= y + bound.
Proof.
  intros Hys Hs. revert pos ps fv w.
  induction its as [|it its IH]; intros pos ps fv w Hbound Hexact Hfv Hlaid;
    simpl in *.
  - by destruct Hlaid.
  - pose proof (sumAbs_nonneg its) as Hnonneg.
    rewrite (add_exact y s) in * by done. rewrite andb_true_r in *.
    rewrite (add_exact ps) in * by (unfold in_range, int_min, int_max; lia).
    destruct (ps <? y + s) eqn:Hskip.
    + apply IH; [lia | lia | done | done].
    + apply Z.ltb_ge in Hskip.
      assert (Hfv1 : y <= (if fv =? -1 then ps else fv) <= y + bound).
      { destruct (fv =? -1) eqn:Heq; [lia|].
        apply Z.eqb_neq in Heq. destruct Hfv; [done | lia]. }
      destruct (Item it) as [q|]; [|done].
      destruct (Primitive_HasFocus _ _); simpl;
        (apply IH; [lia | lia | by right | by left]).
Qed.

(** The first visible position of a frame that lays out a child.  The
    offset is nonnegative, or the viewport does not start at row [-1],
    the value that marks the position as not set. *)
Lemma drawItems_firstVisible x y width s its (w : W) :
  in_range (y + s) ->
  Z.abs y + sumAbs its <= 2 ^ 62 ->
  0 <= s \/ y <> -1 ->
  setRects (lr_events (drawItems x y width s true its y y (-1) w)) <> [] ->
  y <= lr_firstVisibleY (drawItems x y width s true its y y (-1) w)
    <= y + sumAbs its.
Proof.
  intros Hys Hexact Hcase Hlaid.
  destruct (Z.le_gt_cases 0 s) as [Hs | Hs].
  - apply drawItems_firstVisible_range;
      [done | done | lia | done | by left | by right].
  - destruct Hcase as [? | Hy]; [lia|].
    pose proof (sumAbs_nonneg its) as Hnonneg.
    destruct its as [|it its]; [done|]. simpl in *.
    rewrite (add_exact y s) in * by done. rewrite andb_true_r in *.
    replace (y <? y + s) with false in * by (symmetry; apply Z.ltb_ge; lia).
    destruct (Item it) as [q|]; [|done].
    pose proof (sumAbs_nonneg its).
    destruct (Primitive_HasFocus _ _); simpl;
      rewrite drawItems_firstVisible_kept by done; lia.
Qed.

(** The rectangles of a frame are those of its item loop. *)
Lemma drawInner_setRects (Styles : Theme) (unrep : PrimFloat.float -> Z)
    (f : ScrollView B) box1 x y width vh (w : W) :
  let ch := contentHeight (items f) in
  let show := showVerticalScrollBar (scrollBarVisibility f) ch vh in
  let width1 := if (width >? 0) && show then GoInt.sub width 1 else width in
  setRects (dr_trace (drawInner Styles unrep f box1 x y width vh w))
  = setRects (lr_events
                (drawItems x y width1 (clampOffset y vh ch (heightOffset f))
                   show (items f) y y (-1) w)).
Proof.
  simpl.
  destruct (drawInner_trace Styles unrep f box1 x y width vh w)
    as (bar & -> & Hbar & _).
  match goal with
  | |- context [lr_outcome ?r0] => set (r := r0)
  end.
  destruct (deferred_obs (rev (lr_deferred r))) as (Hd1 & _).
  unfold setRects in *. simpl. rewrite !omap_app, Hd1, app_nil_r.
  destruct (lr_outcome r); [|by rewrite app_nil_r].
  pose proof (proj1 (fill_events_obs _
                (fillRemaining_kind Styles x y
                   (if (width >? 0)
                       && showVerticalScrollBar (scrollBarVisibility f)
                            (contentHeight (items f)) vh
                    then GoInt.sub width 1 else width) vh (lr_pos r)))) as Hfill.
  pose proof (proj1 (bar_events_obs _ Hbar)) as Hb.
  unfold setRects in *. by rewrite omap_app, Hfill, Hb, app_nil_r.
Qed.

(** Every cursor of a frame is the clamped value of the cursor formula
    at the first visible position of its item loop; cursors are handed
    out only when the scroll bar is shown on a viewport with rows. *)
Lemma drawInner_cursor_values (Styles : Theme) (unrep : PrimFloat.float -> Z)
    (f : ScrollView B) box1 x y width vh (w : W) :
  let ch := contentHeight (items f) in
  let show := showVerticalScrollBar (scrollBarVisibility f) ch vh in
  let width1 := if (width >? 0) && show then GoInt.sub width 1 else width in
  let r := drawItems x y width1 (clampOffset y vh ch (heightOffset f))
             show (items f) y y (-1) w in
  Forall (fun c => c = cursorOf unrep ch vh (lr_firstVisibleY r) y
                   /\ show = true /\ 0 < vh)
    (scrollBarCursors (dr_trace (drawInner Styles unrep f box1 x y width vh w))).
Proof.
  simpl. unfold drawInner, runDeferred.
  match goal with
  | |- context [lr_outcome ?r0] => set (r := r0)
  end.
  pose proof (deferred_obs (rev (lr_deferred r))) as (_ & _ & _ & Hdef).
  pose proof (proj1 (proj2 (child_events_obs _ Hdef))) as Hd.
  pose proof (drawItems_kind x y
                (if (width >? 0)
                    && showVerticalScrollBar (scrollBarVisibility f)
                         (contentHeight (items f)) vh
                 then GoInt.sub width 1 else width)
                (clampOffset y vh (contentHeight (items f)) (heightOffset f))
                (showVerticalScrollBar (scrollBarVisibility f)
                   (contentHeight (items f)) vh) (items f) y y (-1) w) as Hloop.
  pose proof (proj1 (proj2 (child_events_obs _ Hloop))) as Hl.
  fold r in Hl.
  destruct (lr_outcome r); simpl; unfold scrollBarCursors in *;
    rewrite !omap_app, Hd, Hl; simpl; [|done].
  rewrite (proj2 (fillRemaining_no_bar Styles _ _ _ _ _)).
  rewrite app_nil_r.
  destruct (showVerticalScrollBar _ _ _) eqn:Hshow; simpl; [|done].
  destruct (Z.le_gt_cases vh 0) as [Hle | Hgt].
  { unfold for_lt. replace (Z.to_nat (vh - 0)) with 0%nat by lia. done. }
  eapply Forall_impl; [apply scrollBarCursors_bar|].
  intros c ->. split_and!; [done | done | lia].
Qed.

End FirstVisible.

(** C3, as stated, fails.  In mode [Always] with one item of size 10 in
    a viewport of height 10 the scroll bar is rendered on all ten rows and
    the divisor [contentHeight - visibleheight] is 0.  The cursor has no
    lower clamp either: in mode [Auto], one item of size 5 in a viewport
    of height 2 scrolled to offset 3 is skipped, no item is visible, and
    both rows get the cursor -1; in mode [Always] with two items of size
    3, offset 3 and viewport height 10, every row gets the cursor -4. *)
Lemma cursor_divisor_counterexample :
  scrollBarRows
    (dr_trace (toyDraw (mkView (plainBox 0 0 5 10) [mkItem 1 10 false]
                          ScrollBarAlways 0)))
  = [0; 1; 2; 3; 4; 5; 6; 7; 8; 9]
  /\ cursorDivisor (contentHeight [mkItem 1 10 false]) 10 = 0
  /\ scrollBarCursors
       (dr_trace (toyDraw (mkView (plainBox 0 0 5 2) [mkItem 1 5 false]
                             ScrollBarAuto 3)))
     = [-1; -1]
  /\ scrollBarCursors
       (dr_trace (toyDraw (mkView (plainBox 0 0 5 10) twoThrees
                             ScrollBarAlways 3)))
     = replicate 10 (-4).
Proof. vm_compute. by split_and!. Qed.

(** The mark [-1] matters: on a viewport that starts at row [-1], with a
    negative offset and a first item of negative size, the first item is
    laid out at row [-1], which leaves the first visible position looking
    unset; the second item then sets it to row [-6], above the viewport,
    and the cursor is negative although the content (25) is taller than
    the viewport (10) and both children are laid out. *)
Lemma cursor_unset_mark_example :
  (setRects
     (dr_trace (toyDraw (mkView (plainBox 0 (-1) 5 10)
                           [mkItem 1 (-5) false; mkItem 2 30 false]
                           ScrollBarAlways (-10))))).*1
  = [1%nat; 2%nat]
  /\ scrollBarCursors
       (dr_trace (toyDraw (mkView (plainBox 0 (-1) 5 10)
                             [mkItem 1 (-5) false; mkItem 2 30 false]
                             ScrollBarAlways (-10))))
     = replicate 10 (-8).
Proof. vm_compute. by split. Qed.

(** C3 (amended): whenever [Draw] renders the scroll bar in mode [Auto],
    the divisor [contentExtent - viewportExtent] of the cursor formula is
    nonzero; in every mode each cursor handed to [RenderScrollBar] is at
    most [contentExtent] (the only clamp is the upper one); and in every
    mode, when the content is taller than the viewport and the frame lays
    out a child, the divisor is positive and each cursor lies within
    [[0, contentExtent]].  The lower bound is for sizes whose absolute
    values sum to less than [2^30] (beyond [int] the conversion of the
    product is left to the platform), and for a frame whose offset is
    nonnegative or whose viewport does not start at row [-1], the value
    the loop uses for a first visible position that is not set. *)
Theorem scrollbar_cursor_divisor {B} {HB : BoxAPI B} {W} {HW : PrimitiveAPI W}
    (Styles : Theme) (unrep : PrimFloat.float -> Z)
    (f : ScrollView B) (screen : Screen) (w : W)
    (x y width viewportExtent : Z) :
  Box_GetVisible (Box f) = true ->
  Box_GetInnerRect (drawBox f screen) = (x, y, width, viewportExtent) ->
  in_range viewportExtent ->
  let contentExtent := contentHeight (items f) in
  let trace := dr_trace (Draw Styles unrep f screen w) in
  (scrollBarVisibility f = ScrollBarAuto ->
   scrollBarRows trace <> [] ->
   cursorDivisor contentExtent viewportExtent <> 0)
  /\ Forall (fun cursor => cursor <= contentExtent) (scrollBarCursors trace)
  /\ (viewportExtent < contentExtent ->
      setRects trace <> [] ->
      small y -> small viewportExtent -> small (heightOffset f) ->
      sumAbs (items f) < 2 ^ 30 ->
      0 <= heightOffset f \/ y <> -1 ->
      0 < cursorDivisor contentExtent viewportExtent
      /\ Forall (fun cursor => 0 <= cursor <= contentExtent)
           (scrollBarCursors trace)).
Proof.
  intros Hvis Hrect Hvh contentExtent trace. subst trace.
  rewrite (Draw_visible _ _ _ _ _ x y width viewportExtent) by done.
  split_and!; [|apply drawInner_cursors|].
  - intros Hauto Hrows. rewrite drawInner_rows in Hrows.
    destruct (dr_outcome _); [|done].
    rewrite Hauto in Hrows. unfold showVerticalScrollBar in Hrows.
    simpl in Hrows. fold contentExtent in Hrows.
    destruct (contentExtent >? viewportExtent) eqn:Hgt; [|done].
    apply sub_nonzero; [apply contentHeight_in_range | done | lia].
  - intros Htall Hlaid Hy Hsvh Hk Hsizes Hmark.
    assert (Hsmall : sizes_small (items f)) by (unfold sizes_small; lia).
    pose proof (sumSizes_abs (items f)) as Habs.
    pose proof (contentHeight_exact _ Hsmall) as Hch. fold contentExtent in Hch.
    assert (Hdiv : cursorDivisor contentExtent viewportExtent
                   = contentExtent - viewportExtent).
    { unfold cursorDivisor. apply sub_exact.
      unfold small, in_range, int_min, int_max in *. lia. }
    split; [lia|].
    rewrite drawInner_setRects in Hlaid.
    eapply Forall_impl; [apply drawInner_cursor_values|].
    fold contentExtent in Hlaid |- *.
    set (s := clampOffset y viewportExtent contentExtent (heightOffset f))
      in *.
    intros c (-> & Hshow & Hrows). rewrite Hshow in Hlaid |- *.
    set (width1 := if (width >? 0) && true then sub width 1 else width) in *.
    assert (Hs : s = Z.min (heightOffset f) (contentExtent - viewportExtent)).
    { subst s. rewrite clampOffset_exact; try done.
      - by replace (viewportExtent <? contentExtent) with true
          by (symmetry; by apply Z.ltb_lt).
      - unfold small in *. lia. }
    pose proof (drawItems_firstVisible x y width1 s (items f) w) as Hfv.
    destruct Hfv as [Hlo Hhi]; [| | | done |].
    { unfold small, in_range, int_min, int_max in *. lia. }
    { unfold small in *. lia. }
    { destruct Hmark; [left; lia | by right]. }
    set (fv := lr_firstVisibleY
                 (drawItems x y width1 s true (items f) y y (-1) w)) in *.
    assert (Hraw : 0 <= cursorRaw unrep contentExtent viewportExtent fv y).
    { unfold cursorRaw. rewrite Hdiv.
      rewrite (sub_exact fv y)
        by (unfold small, in_range, int_min, int_max in *; lia).
      apply GoFloatFacts.cursor_formula_nonneg; lia. }
    unfold cursorOf.
    rewrite Z.gtb_ltb.
    destruct (contentExtent <? cursorRaw unrep contentExtent viewportExtent fv y)
      eqn:Hc; [lia|].
    apply Z.ltb_ge in Hc. lia.
Qed.

Lemma scrollbar_cursor_divisor_witness :
  cursorDivisor (contentHeight threeTens) 10 <> 0
  /\ Forall (fun cursor => 0 <= cursor <= contentHeight threeTens)
       (scrollBarCursors
          (dr_trace (toyDraw (mkView (plainBox 0 0 5 10) threeTens
                                ScrollBarAuto 5)))).
Proof.
  edestruct (scrollbar_cursor_divisor toyStyles GoFloat.unrep_amd64
               (mkView (plainBox 0 0 5 10) threeTens ScrollBarAuto 5)
               toyScreen quietWorld 0 0 5 10)
    as (Hdiv & _ & Hcur);
    [reflexivity | reflexivity | unfold in_range, int_min, int_max; lia |].
  split.
  - apply Hdiv; [reflexivity | vm_compute; discriminate].
  - apply Hcur.
    + vm_compute. reflexivity.
    + vm_compute. discriminate.
    + unfold small. lia.
    + unfold small. lia.
    + unfold small. simpl. lia.
    + vm_compute. reflexivity.
    + left. simpl. lia.
Defined.

(** ** C4: the scroll bar visibility decision *)

(** C4: in a [Draw] that gets past the visibility test and returns, the
    scroll bar is rendered on every row of the viewport in mode [Always];
    in mode [Auto] on every row if the content extent (the sum of the
    fixed sizes) exceeds the viewport height and on none otherwise; on
    none in mode [Never].  The decision reads only the current state.
    With three items of fixed size 10 under [Auto], a viewport of height
    10 gets the scroll bar and one of height 30 does not. *)
Theorem scrollbar_visibility_decision :
  (forall (B : Type) (HB : BoxAPI B) (W : Type) (HW : PrimitiveAPI W)
      (Styles : Theme) (unrep : PrimFloat.float -> Z)
      (f : ScrollView B) (screen : Screen) (w : W)
      (x y width viewportExtent : Z),
     Box_GetVisible (Box f) = true ->
     Box_GetInnerRect (drawBox f screen) = (x, y, width, viewportExtent) ->
     sizes_small (items f) ->
     dr_outcome (Draw Styles unrep f screen w) = Returned ->
     scrollBarRows (dr_trace (Draw Styles unrep f screen w))
     = match scrollBarVisibility f with
       | ScrollBarAlways => for_lt 0 viewportExtent
       | ScrollBarAuto =>
           if viewportExtent <? sumSizes (items f)
           then for_lt 0 viewportExtent else []
       | ScrollBarNever => []
       end)
  /\ scrollBarRows
       (dr_trace (toyDraw (mkView (plainBox 0 0 5 10) threeTens ScrollBarAuto 0)))
     = [0; 1; 2; 3; 4; 5; 6; 7; 8; 9]
  /\ scrollBarRows
       (dr_trace (toyDraw (mkView (plainBox 0 0 5 30) threeTens ScrollBarAuto 0)))
     = [].
Proof.
  split; [|by vm_compute].
  intros B HB W HW Styles unrep f screen w x y width viewportExtent
    Hvis Hrect Hsizes Hret.
  rewrite (Draw_visible _ _ _ _ _ x y width viewportExtent) in Hret |- * by done.
  rewrite drawInner_rows, Hret, contentHeight_exact by done.
  unfold showVerticalScrollBar. rewrite Z.gtb_ltb.
  by destruct (scrollBarVisibility f).
Qed.

Lemma scrollbar_visibility_decision_witness :
  scrollBarRows
    (dr_trace (toyDraw (mkView (plainBox 0 0 5 10) twoThrees ScrollBarAlways 0)))
  = for_lt 0 10.
Proof.
  apply (proj1 scrollbar_visibility_decision PlainBox PlainBox_API
           ToyWorld ToyWorld_API toyStyles GoFloat.unrep_amd64
           (mkView (plainBox 0 0 5 10) twoThrees ScrollBarAlways 0)
           toyScreen quietWorld 0 0 5 10);
    [reflexivity | reflexivity | unfold sizes_small; simpl; lia | reflexivity].
Defined.

(** ** C5: the mouse wheel *)

(** C5, as stated, fails when the content is not taller than the
    viewport: [Draw] then applies no clamp, so there is no ceiling.  With
    one item of size 3 in a viewport of height 10 the clamp ceiling
    [max(0, contentExtent - viewportExtent)] is 0; from offset 0 a
    wheel-down followed by [Draw] leaves 1, and from 1 it leaves 2. *)
Lemma wheel_down_ceiling_counterexample :
  Z.max 0 (sumSizes [mkItem 1 3 false] - 10) = 0
  /\ heightOffset
       (dr_view (toyDraw
          (mr_view (MouseHandler
                      (mkView (plainBox 0 0 5 10) [mkItem 1 3 false]
                         ScrollBarAlways 0)
                      MouseScrollDown (eventAt 1 1) quietWorld)))) = 1
  /\ heightOffset
       (dr_view (toyDraw
          (mr_view (MouseHandler
                      (mkView (plainBox 0 0 5 10) [mkItem 1 3 false]
                         ScrollBarAlways 1)
                      MouseScrollDown (eventAt 1 1) quietWorld)))) = 2.
Proof. vm_compute. by split_and!. Qed.

(** C5 (amended): for a wheel event whose position is inside the
    ScrollView's rectangle, wheel-up moves the offset to
    [max(0, offset - 1)] at once; wheel-down moves it to [offset + 1]
    with no clamp in the handler; both report consumed, capture nothing
    and call no child.  The upper clamp comes with the next [Draw] and
    only over content taller than the viewport: there a wheel-down below
    the ceiling [contentExtent - viewportExtent] shows as one more line,
    and at (or above) the ceiling the drawn offset is the ceiling again.
    When the content is not taller than the viewport there is no
    ceiling: the drawn offset is one more after every wheel-down. *)
Theorem wheel_scrolls_by_one {B} {HB : BoxAPI B} {W} {HW : PrimitiveAPI W}
    (Styles : Theme) (unrep : PrimFloat.float -> Z)
    (f : ScrollView B) (event : EventMouse) (w : W) :
  Box_InRect (Position event).1 (Position event).2 (Box f) = true ->
  (in_range (heightOffset f - 1) ->
   MouseHandler f MouseScrollUp event w
   = {| mr_view := set_heightOffset (Z.max 0 (heightOffset f - 1)) f;
        mr_world := w; mr_consumed := true; mr_capture := None;
        mr_calls := [] |})
  /\ (in_range (heightOffset f + 1) ->
      MouseHandler f MouseScrollDown event w
      = {| mr_view := set_heightOffset (heightOffset f + 1) f;
           mr_world := w; mr_consumed := true; mr_capture := None;
           mr_calls := [] |})
  /\ (forall (screen : Screen) (w' : W) (x y width viewportExtent : Z),
        Box_GetVisible (Box f) = true ->
        Box_GetInnerRect (drawBox f screen) = (x, y, width, viewportExtent) ->
        small y -> small viewportExtent -> small (heightOffset f + 1) ->
        sizes_small (items f) ->
        let ceiling := sumSizes (items f) - viewportExtent in
        let drawn :=
          heightOffset
            (dr_view (Draw Styles unrep
                        (mr_view (MouseHandler f MouseScrollDown event w))
                        screen w')) in
        (viewportExtent < sumSizes (items f) ->
         (heightOffset f < ceiling -> drawn = heightOffset f + 1)
         /\ (ceiling <= heightOffset f -> drawn = ceiling))
        /\ (sumSizes (items f) <= viewportExtent ->
            drawn = heightOffset f + 1)).
Proof.
  intros Hin.
  assert (Hup : in_range (heightOffset f - 1) ->
    MouseHandler f MouseScrollUp event w
    = {| mr_view := set_heightOffset (Z.max 0 (heightOffset f - 1)) f;
         mr_world := w; mr_consumed := true; mr_capture := None;
         mr_calls := [] |}).
  { intros Hr. unfold MouseHandler.
    destruct (Position event) as [px py]. simpl in Hin. rewrite Hin. simpl.
    rewrite sub_exact by done.
    do 2 f_equal. destruct (heightOffset f - 1 <? 0) eqn:Hneg; lia. }
  assert (Hdown : in_range (heightOffset f + 1) ->
    MouseHandler f MouseScrollDown event w
    = {| mr_view := set_heightOffset (heightOffset f + 1) f;
         mr_world := w; mr_consumed := true; mr_capture := None;
         mr_calls := [] |}).
  { intros Hr. unfold MouseHandler.
    destruct (Position event) as [px py]. simpl in Hin. rewrite Hin. simpl.
    by rewrite add_exact. }
  split_and!; [done | done |].
  intros screen w' x y width viewportExtent Hvis Hrect Hy Hvh Hoff Hsizes
    ceiling drawn.
  subst drawn. rewrite Hdown by (by apply small_in_range).
  simpl.
  rewrite (Draw_offset _ _ _ _ _ x y width viewportExtent) by done.
  simpl. split.
  - intros Hlt.
    replace (viewportExtent <? sumSizes (items f)) with true
      by (symmetry; by apply Z.ltb_lt).
    subst ceiling. lia.
  - intros Hfits.
    by replace (viewportExtent <? sumSizes (items f)) with false
      by (symmetry; by apply Z.ltb_ge).
Qed.

Lemma wheel_scrolls_by_one_witness :
  heightOffset
    (mr_view (MouseHandler (mkView (plainBox 0 0 5 10) threeTens ScrollBarAuto 20)
                MouseScrollUp (eventAt 1 1) quietWorld)) = 19
  /\ heightOffset
       (mr_view (MouseHandler (mkView (plainBox 0 0 5 10) threeTens ScrollBarAuto 20)
                   MouseScrollDown (eventAt 1 1) quietWorld)) = 21
  /\ heightOffset
       (dr_view (toyDraw
          (mr_view (MouseHandler
                      (mkView (plainBox 0 0 5 10) threeTens ScrollBarAuto 20)
                      MouseScrollDown (eventAt 1 1) quietWorld)))) = 20.
Proof.
  edestruct (wheel_scrolls_by_one toyStyles GoFloat.unrep_amd64
               (mkView (plainBox 0 0 5 10) threeTens ScrollBarAuto 20)
               (eventAt 1 1) quietWorld)
    as (Hup & Hdown & Hdraw); [reflexivity|].
  split_and!.
  - rewrite Hup by (unfold in_range, int_min, int_max; simpl; lia).
    reflexivity.
  - rewrite Hdown by (unfold in_range, int_min, int_max; simpl; lia).
    reflexivity.
  - edestruct (Hdraw toyScreen quietWorld 0 0 5 10) as [Htall _];
      [reflexivity | reflexivity | unfold small; lia | unfold small; lia
      | unfold small; simpl; lia | unfold sizes_small; simpl; lia |].
    destruct Htall as [_ Hceiling]; [simpl; lia|].
    unfold toyDraw. etrans; [apply Hceiling; simpl; lia | reflexivity].
Defined.

(** ** C6: forwarding of unhandled mouse events *)

(** C6: for a mouse event inside the ScrollView's rectangle that is not
    a wheel-up or wheel-down, the children's handlers are called on the
    non-nil items in sequence order, each in the world its predecessors
    left.  Either some child reports consumed: it is the last child
    called, everyone called before it declined, the items after it are
    not called, and the handler returns consumed with that child's
    capture; or nobody does: every non-nil item was called and the
    handler reports not consumed. *)
Theorem mouse_first_consumer_wins {B} {HB : BoxAPI B} {W} {HW : PrimitiveAPI W}
    (f : ScrollView B) (action : MouseAction) (event : EventMouse) (w : W) :
  Box_InRect (Position event).1 (Position event).2 (Box f) = true ->
  action <> MouseScrollUp -> action <> MouseScrollDown ->
  let r := MouseHandler f action event w in
  mr_view r = f
  /\ answered action event w (mr_calls r)
  /\ ((mr_consumed r = true
       /\ exists l1 item l2 p calls0,
            items f = l1 ++ item :: l2
            /\ Item item = Some p
            /\ mr_calls r
               = calls0 ++ [{| cc_child := p; cc_consumed := true;
                               cc_capture := mr_capture r |}]
            /\ map cc_child calls0 = omap Item l1
            /\ allDeclined calls0)
      \/ (mr_consumed r = false
          /\ map cc_child (mr_calls r) = omap Item (items f)
          /\ allDeclined (mr_calls r))).
Proof.
  intros Hin Hup Hdown.
  pose proof (forwardMouse_first_consumer action event (items f) None w) as Hfwd.
  unfold MouseHandler.
  destruct (Position event) as [px py]. simpl in Hin. rewrite Hin. simpl.
  destruct (forwardMouse action event (items f) None w)
    as [[[c cap] w1] calls].
  destruct action; try done; simpl; by split.
Qed.

Lemma mouse_first_consumer_wins_witness :
  answered MouseLeftClick (eventAt 1 1) clickWorld
    (mr_calls (MouseHandler (mkView (plainBox 0 0 5 10) mixedItems ScrollBarAuto 0)
                 MouseLeftClick (eventAt 1 1) clickWorld))
  /\ mr_calls (MouseHandler (mkView (plainBox 0 0 5 10) mixedItems ScrollBarAuto 0)
                 MouseLeftClick (eventAt 1 1) clickWorld)
     = [{| cc_child := 1%nat; cc_consumed := false; cc_capture := None |};
        {| cc_child := 2%nat; cc_consumed := true; cc_capture := Some 2%nat |}]
  /\ mr_consumed (MouseHandler (mkView (plainBox 0 0 5 10) mixedItems ScrollBarAuto 0)
                    MouseLeftClick (eventAt 1 1) clickWorld) = true
  /\ mr_capture (MouseHandler (mkView (plainBox 0 0 5 10) mixedItems ScrollBarAuto 0)
                   MouseLeftClick (eventAt 1 1) clickWorld) = Some 2%nat.
Proof.
  split; [|by vm_compute].
  apply (mouse_first_consumer_wins
           (mkView (plainBox 0 0 5 10) mixedItems ScrollBarAuto 0)
           MouseLeftClick (eventAt 1 1) clickWorld);
    [reflexivity | discriminate | discriminate].
Defined.

(** ** C7: focus delegation *)

(** C7, as stated, fails on an item whose focus flag is set but whose
    primitive is nil: the scan passes over it.  With a flagged nil item
    before a flagged item B, the delegate is called with B, not with the
    first flagged item; with a flagged nil item alone the delegate is not
    called although an item has the flag. *)
Lemma Focus_counterexample :
  firstFlagged [nilItem 1 true; mkItem 2 1 true] = Some (nilItem 1 true)
  /\ ScrollView_Focus
       (mkView (plainBox 0 0 5 10) [nilItem 1 true; mkItem 2 1 true]
          ScrollBarAuto 0) = [2%nat]
  /\ firstFlagged [nilItem 1 true] = Some (nilItem 1 true)
  /\ ScrollView_Focus
       (mkView (plainBox 0 0 5 10) [nilItem 1 true] ScrollBarAuto 0) = [].
Proof. by vm_compute. Qed.

(** C7 (amended): [Focus(delegate)] scans the items in sequence order and
    calls the delegate exactly once, with the primitive of the first item
    that has a non-nil primitive and the focus flag set; if there is no
    such item the delegate is never called.  For [A(false), B(true),
    C(false)] the delegate is called once, with B. *)
Theorem Focus_delegates_to_first_flagged {B} (f : ScrollView B) :
  (forall l1 item l2 p,
     items f = l1 ++ item :: l2 ->
     Forall declinesFocus l1 ->
     Item item = Some p -> Focus item = true ->
     ScrollView_Focus f = [p])
  /\ (Forall declinesFocus (items f) -> ScrollView_Focus f = [])
  /\ (length (ScrollView_Focus f) <= 1)%nat
  /\ Focus_loop focusABC = [2%nat].
Proof.
  unfold ScrollView_Focus. split_and!.
  - intros l1 item l2 p -> Hl1 Hp Hflag.
    rewrite Focus_loop_skip by done. simpl. by rewrite Hp, Hflag.
  - intros Hall.
    rewrite <- (app_nil_r (items f)). by rewrite Focus_loop_skip.
  - apply Focus_loop_at_most_once.
  - reflexivity.
Qed.

Lemma Focus_delegates_to_first_flagged_witness :
  ScrollView_Focus (mkView (plainBox 0 0 5 10) focusABC ScrollBarAuto 0)
  = [2%nat].
Proof.
  apply (proj1 (Focus_delegates_to_first_flagged
                  (mkView (plainBox 0 0 5 10) focusABC ScrollBarAuto 0))
           [mkItem 1 1 false] (mkItem 2 1 true) [mkItem 3 1 false] 2%nat);
    [reflexivity | | reflexivity | reflexivity].
  constructor; [by right | constructor].
Defined.

(** ** C8: RemoveItem *)

(** C8: [RemoveItem(p)] returns, and leaves exactly the items whose
    primitive is not [p], in their order and unchanged: every occurrence
    of [p] is gone, also when [p] occurs twice or more. *)
Theorem RemoveItem_removes_every_occurrence {B} (f : ScrollView B) (p : Primitive) :
  RemoveItem p f
  = Some (set_items (filter (fun it => Item it <> p) (items f)) f)
  /\ Forall (fun it => Item it <> p)
       (filter (fun it => Item it <> p) (items f))
  /\ filter (fun it => Item it <> p) (items f) `sublist_of` items f
  /\ RemoveItem_loop 4 (Some 7%nat)
       [mkItem 1 1 false; mkItem 7 2 false; mkItem 7 3 true; mkItem 2 4 false]
     = Some [mkItem 1 1 false; mkItem 2 4 false].
Proof.
  split_and!.
  - unfold RemoveItem. rewrite RemoveItem_loop_filter by done.
    by rewrite firstn_all, drop_all, app_nil_r.
  - apply Forall_forall. intros it Hit.
    by apply list_elem_of_filter in Hit as [Hne _].
  - apply sublist_filter.
  - reflexivity.
Qed.

(** ** C9: the fill below the last item *)

(** C9 does not hold of the code: the fill loop writes [SetContent(x, i,
    ...)] with the column fixed at [x] and runs its column counter while
    [x+xx < width].  On an empty ScrollView with inner rectangle
    [(0, 0, 3, 2)] the cell [(0, i)] of each row is written three times
    and the cells of columns 1 and 2 are never written; with the same
    rectangle moved to column 5 nothing is written at all. *)
Theorem fill_writes_one_column :
  cellsWritten
    (dr_trace (toyDraw (mkView (plainBox 0 0 3 2) [] ScrollBarNever 0)))
  = [(0, 0); (0, 0); (0, 0); (0, 1); (0, 1); (0, 1)]
  /\ cellsWritten
       (dr_trace (toyDraw (mkView (plainBox 5 0 3 2) [] ScrollBarNever 0)))
     = [].
Proof. by vm_compute. Qed.

(** ** C10: AddItemAtIndex keeps a nil primitive *)

(** C10: [AddItemAtIndex(i, item, size, focus)] with [i] within the
    item list returns and stores its primitive argument exactly as
    passed, at position [i], where [GetItems] returns it: a nil argument
    is stored as nil and returned as nil, whereas [AddItem] stores a new
    box made invisible in its place.  The loop of [Draw] calls [SetRect]
    on an item it does not skip without testing for nil, which panics;
    so when the scroll bar is not shown (nothing is skipped) a frame on
    the view with the nil item ends in a panic. *)
Theorem AddItemAtIndex_keeps_nil {B} {HB : BoxAPI B} {W} {HW : PrimitiveAPI W}
    (Styles : Theme) (unrep : PrimFloat.float -> Z)
    (f : ScrollView B) (index size : Z) (focus : bool) :
  0 <= index <= Z.of_nat (length (items f)) ->
  let inserted (item : Primitive) :=
    set_items (take (Z.to_nat index) (items f)
                 ++ {| Item := item; FixedSize := size; Focus := focus |}
                 :: drop (Z.to_nat index) (items f)) f in
  (forall item : Primitive,
     AddItemAtIndex index item size focus f = Some (inserted item)
     /\ GetItems (inserted item) !! Z.to_nat index = Some item)
  /\ (forall w : W,
        AddItem None size focus f w
        = (set_items (items f ++ [{| Item := Some (NewBox w).1;
                                     FixedSize := size; Focus := focus |}]) f,
           Primitive_SetVisible (NewBox w).1 false (NewBox w).2))
  /\ (forall (x y width s : Z) (show : bool) (rest : list scrollItem)
             (pos posScrolled firstVisibleY : Z) (w : W),
        (posScrolled <? add y s) && show = false ->
        lr_outcome (drawItems x y width s show (nilItem size focus :: rest)
                      pos posScrolled firstVisibleY w) = Panicked)
  /\ (forall (screen : Screen) (w : W) (x y width viewportExtent : Z),
        Box_GetVisible (Box f) = true ->
        Box_GetInnerRect (drawBox (inserted None) screen)
        = (x, y, width, viewportExtent) ->
        showVerticalScrollBar (scrollBarVisibility f)
          (contentHeight (items (inserted None))) viewportExtent = false ->
        dr_outcome (Draw Styles unrep (inserted None) screen w) = Panicked).
Proof.
  intros Hindex inserted. split_and!.
  - intros item. split.
    + unfold AddItemAtIndex. destruct (index =? 0) eqn:H0.
      * apply Z.eqb_eq in H0. by subst index.
      * replace ((0 <=? index) && (index <=? Z.of_nat (length (items f))))
          with true; [done|].
        symmetry. apply andb_true_iff. split; apply Z.leb_le; lia.
    + unfold GetItems, inserted. simpl. rewrite list_lookup_fmap.
      rewrite lookup_app_r by (rewrite length_take; lia).
      replace (Z.to_nat index - length (take (Z.to_nat index) (items f)))%nat
        with 0%nat by (rewrite length_take; lia).
      done.
  - intros w. unfold AddItem. by destruct (NewBox w).
  - intros x y width s show rest pos ps fv w Hskip. simpl. by rewrite Hskip.
  - intros screen w x y width viewportExtent Hvis Hrect Hshow.
    rewrite (Draw_visible _ _ _ _ _ x y width viewportExtent) by done.
    rewrite drawInner_outcome. cbv zeta.
    change (scrollBarVisibility (inserted None)) with (scrollBarVisibility f).
    rewrite Hshow.
    apply drawItems_panics. unfold inserted. simpl.
    apply Exists_app. right. by constructor.
Qed.

Lemma AddItemAtIndex_keeps_nil_witness :
  AddItemAtIndex 1 None 2 false
    (mkView (plainBox 0 0 5 10) twoThrees ScrollBarNever 0)
  = Some (mkView (plainBox 0 0 5 10)
            [mkItem 1 3 false; nilItem 2 false; mkItem 2 3 false]
            ScrollBarNever 0)
  /\ AddItemAtIndex 1 (Some 9%nat) 2 false
       (mkView (plainBox 0 0 5 10) twoThrees ScrollBarNever 0)
     = Some (mkView (plainBox 0 0 5 10)
               [mkItem 1 3 false; mkItem 9 2 false; mkItem 2 3 false]
               ScrollBarNever 0)
  /\ dr_outcome
       (toyDraw (mkView (plainBox 0 0 5 10)
                   [mkItem 1 3 false; nilItem 2 false; mkItem 2 3 false]
                   ScrollBarNever 0)) = Panicked.
Proof.
  edestruct (AddItemAtIndex_keeps_nil toyStyles GoFloat.unrep_amd64
               (mkView (plainBox 0 0 5 10) twoThrees ScrollBarNever 0)
               1 2 false (W := ToyWorld))
    as (Hadd & _ & _ & Hdraw); [simpl; lia|].
  split_and!.
  - exact (proj1 (Hadd None)).
  - exact (proj1 (Hadd (Some 9%nat))).
  - apply (Hdraw toyScreen quietWorld 0 0 5 10); reflexivity.
Defined.

(** * Further properties of the item list *)

Section ItemListMore.

Context {B : Type}.
Implicit Types (f : ScrollView B) (its : list scrollItem) (p : Primitive).

Lemma set_items_same f : set_items (items f) f = f.
Proof. by destruct f. Qed.

Lemma RemoveItem_filter p f :
  RemoveItem p f = Some (set_items (filter (fun it => Item it <> p) (items f)) f).
Proof.
  unfold RemoveItem. rewrite RemoveItem_loop_filter by done.
  by rewrite firstn_all, drop_all, app_nil_r.
Qed.

Lemma filter_absent p its :
  p ∉ map Item its -> filter (fun it => Item it <> p) its = its.
Proof.
  induction its as [|it its IH]; intros Hnot; [done|].
  simpl in Hnot. apply not_elem_of_cons in Hnot as [Hne Hrest].
  rewrite filter_cons_True by (intros Heq; by apply Hne).
  by rewrite IH.
Qed.

Lemma filter_matching p its :
  Forall (fun it => Item it = p) its -> filter (fun it => Item it <> p) its = [].
Proof.
  induction 1 as [|it its Hit _ IH]; [done|].
  rewrite filter_cons_False by (intros Hne; by apply Hne). done.
Qed.

End ItemListMore.

(** X1: [AddItemAtIndex] panics exactly when the index lies outside
    [0 .. len]; otherwise the new primitive sits at that index, the
    primitives before and after it keep their order, the list is one
    longer and the scroll offset is untouched. *)
Theorem AddItemAtIndex_bounds {B} (f : ScrollView B) (index : Z)
    (item : Primitive) (size : Z) (focus : bool) :
  (AddItemAtIndex index item size focus f = None
   <-> index < 0 \/ Z.of_nat (length (items f)) < index)
  /\ (forall f',
        AddItemAtIndex index item size focus f = Some f' ->
        GetItems f'
        = take (Z.to_nat index) (GetItems f)
            ++ item :: drop (Z.to_nat index) (GetItems f)
        /\ GetItems f' !! Z.to_nat index = Some item
        /\ length (GetItems f') = S (length (GetItems f))
        /\ heightOffset f' = heightOffset f).
Proof.
  unfold AddItemAtIndex, GetItems.
  destruct (index =? 0) eqn:H0.
  - apply Z.eqb_eq in H0. subst index. split.
    + split; [done | lia].
    + intros f' [= <-]. simpl. by rewrite drop_0.
  - apply Z.eqb_neq in H0.
    destruct ((0 <=? index) && (index <=? Z.of_nat (length (items f)))) eqn:Hin.
    + apply andb_true_iff in Hin as [Hlo Hhi].
      apply Z.leb_le in Hlo, Hhi. split.
      * split; [done | lia].
      * intros f' [= <-]. simpl.
        rewrite map_app. simpl.
        rewrite <- !fmap_take, <- !fmap_drop.
        split_and!; [done | | | done].
        -- rewrite lookup_app_r by (rewrite length_map, length_take; lia).
           rewrite length_map, length_take.
           by replace (Z.to_nat index - Z.to_nat index `min` length (items f))%nat
             with 0%nat by lia.
        -- rewrite length_app. simpl.
           rewrite !length_map, length_take, length_drop. lia.
    + split; [|done]. split; [|done]. intros _.
      apply andb_false_iff in Hin as [Hlo | Hhi].
      * apply Z.leb_gt in Hlo. lia.
      * apply Z.leb_gt in Hhi. lia.
Qed.

Lemma AddItemAtIndex_bounds_witness :
  GetItems (mkView (plainBox 0 0 5 10)
              [mkItem 1 3 false; mkItem 9 4 true; mkItem 2 3 false]
              ScrollBarAuto 0)
  = take 1 (GetItems (mkView (plainBox 0 0 5 10) twoThrees ScrollBarAuto 0))
      ++ Some 9%nat
      :: drop 1 (GetItems (mkView (plainBox 0 0 5 10) twoThrees ScrollBarAuto 0)).
Proof.
  apply (proj2 (AddItemAtIndex_bounds
                  (mkView (plainBox 0 0 5 10) twoThrees ScrollBarAuto 0)
                  1 (Some 9%nat) 4 true)
           (mkView (plainBox 0 0 5 10)
              [mkItem 1 3 false; mkItem 9 4 true; mkItem 2 3 false]
              ScrollBarAuto 0)).
  reflexivity.
Defined.

Section ItemListWorld.

Context {B : Type} {HB : BoxAPI B} {W : Type} {HW : PrimitiveAPI W}.
Implicit Types (f : ScrollView B) (its : list scrollItem) (w : W).

Lemma noNil_filter p its : noNil its -> noNil (filter (fun it => Item it <> p) its).
Proof.
  unfold noNil. intros Hall. apply Forall_forall. intros it Hit.
  apply list_elem_of_filter in Hit as [_ Hin].
  by apply (proj1 (Forall_forall _ _) Hall).
Qed.

Lemma Focus_loop_app l1 l2 :
  Focus_loop (l1 ++ l2)
  = match Focus_loop l1 with [] => Focus_loop l2 | calls => calls end.
Proof.
  induction l1 as [|it l1 IH]; simpl; [done|].
  destruct (Item it); [destruct (Focus it)|]; done.
Qed.

Lemma HasFocus_iff f w :
  HasFocus f w = true
  <-> exists p, Some p ∈ GetItems f /\ Primitive_HasFocus p w = true.
Proof.
  unfold HasFocus, GetItems. rewrite existsb_exists. split.
  - intros [it [Hin Hfoc]]. destruct (Item it) as [p|] eqn:Hp; [|done].
    exists p. split; [|done].
    apply list_elem_of_In in Hin. rewrite <- Hp.
    by apply (list_elem_of_fmap_2 Item).
  - intros [p [Hin Hfoc]].
    apply (list_elem_of_fmap_1 Item) in Hin as [it [Hp Hin]].
    exists it. split; [by apply list_elem_of_In|]. by rewrite <- Hp.
Qed.

End ItemListWorld.

(** X2: [AddItem] appends exactly one item and never stores nil: a
    non-nil primitive is stored as given and the children are left
    alone (the same list as [AddItemAtIndex] at index [len]); for nil a
    new box is taken, made invisible and stored in its place. *)
Theorem AddItem_appends {B} {W} {HW : PrimitiveAPI W}
    (f : ScrollView B) (item : Primitive) (size : Z) (focus : bool) (w : W) :
  let stored := match item with Some p => p | None => (NewBox w).1 end in
  (AddItem item size focus f w).1
  = set_items (items f ++ [{| Item := Some stored; FixedSize := size;
                              Focus := focus |}]) f
  /\ GetItems (AddItem item size focus f w).1 = GetItems f ++ [Some stored]
  /\ (AddItem item size focus f w).2
     = match item with
       | Some _ => w
       | None => Primitive_SetVisible stored false (NewBox w).2
       end
  /\ match item with
     | Some _ =>
         AddItemAtIndex (Z.of_nat (length (items f))) item size focus f
         = Some (AddItem item size focus f w).1
     | None => True
     end.
Proof.
  unfold AddItem, GetItems.
  destruct item as [p|]; simpl.
  - split_and!; [done | by rewrite map_app | done |].
    unfold AddItemAtIndex.
    destruct (Z.of_nat (length (items f)) =? 0) eqn:H0.
    + apply Z.eqb_eq in H0.
      assert (Hnil : items f = []) by (apply length_zero_iff_nil; lia).
      by rewrite Hnil.
    + replace ((0 <=? Z.of_nat (length (items f)))
               && (Z.of_nat (length (items f)) <=? Z.of_nat (length (items f))))
        with true by (symmetry; apply andb_true_iff; split; apply Z.leb_le; lia).
      by rewrite Nat2Z.id, firstn_all, drop_all.
  - destruct (NewBox w) as [b w0]. simpl.
    split_and!; [done | by rewrite map_app | done | done].
Qed.

(** X3: a removal undoes an insertion.  When the primitive (nil
    included) is not in the view, [AddItemAtIndex] at any valid index
    followed by [RemoveItem] of that primitive gives the view back, and
    so does [AddItem] of a non-nil primitive followed by [RemoveItem]. *)
Theorem RemoveItem_undoes_insertion {B} {W} {HW : PrimitiveAPI W}
    (f : ScrollView B) (item : Primitive) (size : Z) (focus : bool) :
  item ∉ GetItems f ->
  (forall index f',
     AddItemAtIndex index item size focus f = Some f' ->
     RemoveItem item f' = Some f)
  /\ (forall (w : W) p,
        item = Some p ->
        RemoveItem item (AddItem item size focus f w).1 = Some f).
Proof.
  intros Habsent.
  assert (Hmid : forall l1 l2, items f = l1 ++ l2 ->
            RemoveItem item
              (set_items (l1 ++ {| Item := item; FixedSize := size;
                                   Focus := focus |} :: l2) f)
            = Some f).
  { intros l1 l2 Hsplit. rewrite RemoveItem_filter. simpl.
    rewrite filter_app, filter_cons_False by (intros Hne; by apply Hne).
    rewrite <- filter_app, <- Hsplit, filter_absent by done.
    f_equal. by destruct f. }
  split.
  - intros index f'. unfold AddItemAtIndex.
    destruct (index =? 0).
    + intros [= <-]. by apply (Hmid []).
    + destruct (_ && _); [|done]. intros [= <-].
      apply Hmid. by rewrite take_drop.
  - intros w p ->. unfold AddItem. simpl.
    apply Hmid. by rewrite app_nil_r.
Qed.

Lemma RemoveItem_undoes_insertion_witness :
  RemoveItem (Some 9%nat)
    (mkView (plainBox 0 0 5 10)
       [mkItem 1 3 false; mkItem 9 4 true; mkItem 2 3 false] ScrollBarAuto 0)
  = Some (mkView (plainBox 0 0 5 10) twoThrees ScrollBarAuto 0).
Proof.
  refine (proj1 (RemoveItem_undoes_insertion (W := ToyWorld)
                   (mkView (plainBox 0 0 5 10) twoThrees ScrollBarAuto 0)
                   (Some 9%nat) 4 true _) 1 _ _); [|reflexivity].
  vm_compute. intros Hin.
  repeat (apply elem_of_cons in Hin as [Hin | Hin]; [discriminate|]).
  by apply elem_of_nil in Hin.
Defined.

(** X4: [RemoveItem] is idempotent.  Whenever [RemoveItem(p)] returns a
    view (primitives being compared as identities; a comparison that
    panics on an uncomparable dynamic type is outside this model), the
    primitive is not in that view, removing it again gives the same
    view, and if the primitive was not in the view to begin with the
    view is unchanged.  Only the item list changes, and it never grows:
    the scroll offset is left as it was, even when it now points past
    the content. *)
Theorem RemoveItem_idempotent {B} (f f' : ScrollView B) (p : Primitive) :
  RemoveItem p f = Some f' ->
  (p ∉ GetItems f')
  /\ RemoveItem p f' = Some f'
  /\ (p ∉ GetItems f -> f' = f)
  /\ (length (items f') <= length (items f))%nat
  /\ heightOffset f' = heightOffset f
  /\ Box f' = Box f.
Proof.
  rewrite RemoveItem_filter. intros [= <-].
  assert (Hgone : p ∉ map Item (filter (fun it => Item it <> p) (items f))).
  { intros Hin. apply list_elem_of_fmap in Hin as [it [Hp Hin]].
    apply list_elem_of_filter in Hin as [Hne _]. by apply Hne. }
  split_and!; try done.
  - rewrite RemoveItem_filter. simpl. by rewrite filter_absent.
  - intros Habsent. rewrite filter_absent by done. apply set_items_same.
  - simpl. apply length_filter.
Qed.

Lemma RemoveItem_idempotent_witness :
  RemoveItem (Some 1%nat)
    (mkView (plainBox 0 0 5 10) [mkItem 2 3 false] ScrollBarAuto 4)
  = Some (mkView (plainBox 0 0 5 10) [mkItem 2 3 false] ScrollBarAuto 4)
  /\ heightOffset
       (mkView (plainBox 0 0 5 10) [mkItem 2 3 false] ScrollBarAuto 4)
     = heightOffset (mkView (plainBox 0 0 5 10) twoThrees ScrollBarAuto 4).
Proof.
  edestruct (RemoveItem_idempotent
               (mkView (plainBox 0 0 5 10) twoThrees ScrollBarAuto 4)
               (mkView (plainBox 0 0 5 10) [mkItem 2 3 false] ScrollBarAuto 4)
               (Some 1%nat))
    as (_ & Hagain & _ & _ & Hoffset & _); [reflexivity|].
  split; [exact Hagain | exact Hoffset].
Defined.

(** X5: [ResizeItem] rewrites sizes in place.  Primitives, their order
    and the focus delegation are as before; every item of the given
    primitive has the new size and the other items are untouched; the
    content extent becomes the extent of the other items plus the new
    size for each occurrence; a second resize of the same primitive
    overrides the first. *)
Theorem ResizeItem_in_place {B} (f : ScrollView B) (p : Primitive) (size : Z) :
  GetItems (ResizeItem p size f) = GetItems f
  /\ ScrollView_Focus (ResizeItem p size f) = ScrollView_Focus f
  /\ Forall (fun it => Item it = p -> FixedSize it = size)
       (items (ResizeItem p size f))
  /\ filter (fun it => Item it <> p) (items (ResizeItem p size f))
     = filter (fun it => Item it <> p) (items f)
  /\ sumSizes (items (ResizeItem p size f))
     = sumSizes (filter (fun it => Item it <> p) (items f))
       + size * Z.of_nat (length (filter (fun it => Item it = p) (items f)))
  /\ (forall size', ResizeItem p size' (ResizeItem p size f) = ResizeItem p size' f)
  /\ heightOffset (ResizeItem p size f) = heightOffset f.
Proof.
  unfold ResizeItem, GetItems, ScrollView_Focus. simpl.
  split_and!; [| | | | | | done].
  - induction (items f) as [|it its IH]; simpl; [done|].
    rewrite IH. by case_decide.
  - induction (items f) as [|it its IH]; simpl; [done|].
    rewrite IH. by case_decide.
  - induction (items f) as [|it its IH]; simpl; constructor; [|done].
    by case_decide.
  - induction (items f) as [|it its IH]; simpl; [done|].
    case_decide as Hp.
    + rewrite !filter_cons_False by (simpl; intros Hne; by apply Hne). done.
    + rewrite !filter_cons_True by done. by rewrite IH.
  - induction (items f) as [|it its IH]; simpl; [lia|].
    case_decide as Hp.
    + rewrite filter_cons_False by (intros Hne; by apply Hne).
      rewrite filter_cons_True by done. simpl. lia.
    + rewrite filter_cons_True by done.
      rewrite (filter_cons_False (fun it => Item it = p)) by done. simpl. lia.
  - intros size'. unfold set_items. simpl. f_equal. rewrite map_map.
    apply map_ext. intros it. repeat case_decide; simpl in *; done.
Qed.

Lemma ResizeItem_in_place_witness :
  sumSizes (items (ResizeItem (Some 1%nat) 7
                     (mkView (plainBox 0 0 5 10) twoThrees ScrollBarAuto 0)))
  = sumSizes (filter (fun it => Item it <> Some 1%nat) twoThrees)
    + 7 * Z.of_nat (length (filter (fun it => Item it = Some 1%nat) twoThrees)).
Proof.
  apply (ResizeItem_in_place
           (mkView (plainBox 0 0 5 10) twoThrees ScrollBarAuto 0)
           (Some 1%nat) 7).
Defined.

(** X6: a view without nil primitives never panics in [Draw], whatever
    the mode, the offset and the sizes; and in a frame that shows no
    scroll bar (nothing is skipped) [Draw] returns exactly when the view
    has no nil primitive.  The property "no nil primitive" is kept by
    [AddItem], [RemoveItem] and [ResizeItem] and is established by
    [RemoveItem(nil)]. *)
Theorem Draw_returns_without_nil {B} {HB : BoxAPI B} {W} {HW : PrimitiveAPI W}
    (Styles : Theme) (unrep : PrimFloat.float -> Z)
    (f : ScrollView B) (screen : Screen) (w : W) :
  (noNil (items f) -> dr_outcome (Draw Styles unrep f screen w) = Returned)
  /\ (forall x y width viewportExtent,
        Box_GetVisible (Box f) = true ->
        Box_GetInnerRect (drawBox f screen) = (x, y, width, viewportExtent) ->
        showVerticalScrollBar (scrollBarVisibility f)
          (contentHeight (items f)) viewportExtent = false ->
        (dr_outcome (Draw Styles unrep f screen w) = Returned
         <-> noNil (items f)))
  /\ (forall item size focus w0,
        noNil (items f) -> noNil (items (AddItem item size focus f w0).1))
  /\ (forall p f', noNil (items f) -> RemoveItem p f = Some f' -> noNil (items f'))
  /\ (forall p size, noNil (items f) -> noNil (items (ResizeItem p size f)))
  /\ (forall f', RemoveItem None f = Some f' -> noNil (items f')).
Proof.
  assert (Hret : noNil (items f) ->
            dr_outcome (Draw Styles unrep f screen w) = Returned).
  { intros Hall. unfold Draw.
    destruct (negb (Box_GetVisible (Box f))); [done|].
    destruct (Box_GetInnerRect _) as [[[x y] width] vh].
    rewrite drawInner_outcome. by apply drawItems_returns. }
  split_and!; [done | | | | |].
  - intros x y width vh Hvis Hrect Hshow. split; [|done].
    intros Hout.
    rewrite (Draw_visible _ _ _ _ _ x y width vh) in Hout by done.
    rewrite drawInner_outcome in Hout. cbv zeta in Hout. rewrite Hshow in Hout.
    apply Forall_forall. intros it Hin Hnil.
    rewrite drawItems_panics in Hout; [done|].
    apply Exists_exists. eauto.
  - intros item size focus w0 Hall. unfold noNil, AddItem.
    destruct item as [p|]; [|destruct (NewBox w0)]; simpl;
      (apply Forall_app; split; [done|]); by constructor.
  - intros p f' Hall. rewrite RemoveItem_filter. intros [= <-]. simpl.
    by apply noNil_filter.
  - intros p size Hall. unfold ResizeItem, noNil in *. simpl.
    apply Forall_fmap. eapply Forall_impl; [exact Hall|].
    intros it Hit. simpl. by case_decide.
  - intros f'. rewrite RemoveItem_filter. intros [= <-]. simpl.
    apply Forall_forall. intros it Hin.
    by apply list_elem_of_filter in Hin as [Hne _].
Qed.

Lemma Draw_returns_without_nil_witness :
  dr_outcome (toyDraw (mkView (plainBox 0 0 5 10) threeTens ScrollBarAlways 7))
  = Returned.
Proof.
  apply (proj1 (Draw_returns_without_nil toyStyles GoFloat.unrep_amd64
                  (mkView (plainBox 0 0 5 10) threeTens ScrollBarAlways 7)
                  toyScreen quietWorld)).
  repeat constructor; discriminate.
Defined.

(** X7: the first flagged item keeps the focus.  After [AddItem] the
    delegation is as before when some item already took it; otherwise
    the delegate goes to the stored primitive if the new item is flagged
    (for a nil argument that is the invisible box standing in for it),
    and to nobody if it is not. *)
Theorem AddItem_keeps_first_focus {B} {W} {HW : PrimitiveAPI W}
    (f : ScrollView B) (item : Primitive) (size : Z) (focus : bool) (w : W) :
  ScrollView_Focus (AddItem item size focus f w).1
  = match ScrollView_Focus f with
    | [] =>
        if focus
        then [match item with Some p => p | None => (NewBox w).1 end]
        else []
    | calls => calls
    end.
Proof.
  unfold ScrollView_Focus, AddItem.
  destruct item as [p|]; [|destruct (NewBox w) as [b w0]]; simpl;
    rewrite Focus_loop_app; simpl; by destruct focus.
Qed.

(** X8: [HasFocus] depends only on which non-nil primitives the view
    holds: it is true exactly when one of them reports focus, so two
    views holding the same primitives agree, whatever the order, the
    sizes, the flags and the nil items. *)
Theorem HasFocus_by_primitives {B} {W} {HW : PrimitiveAPI W}
    (f g : ScrollView B) (w : W) :
  (HasFocus f w = true
   <-> exists p, Some p ∈ GetItems f /\ Primitive_HasFocus p w = true)
  /\ ((forall p, Some p ∈ GetItems f <-> Some p ∈ GetItems g) ->
      HasFocus f w = HasFocus g w).
Proof.
  split; [apply HasFocus_iff|].
  intros Hsame. apply eq_true_iff_eq.
  rewrite !HasFocus_iff. split; intros [p [Hin Hfoc]]; exists p;
    (split; [by apply Hsame | done]).
Qed.

Lemma HasFocus_by_primitives_witness :
  HasFocus (mkView (plainBox 0 0 5 10) twoThrees ScrollBarAuto 0) quietWorld
  = HasFocus (mkView (plainBox 0 0 5 10)
                [mkItem 2 8 true; nilItem 1 false; mkItem 1 1 false]
                ScrollBarNever 4) quietWorld.
Proof.
  apply (proj2 (HasFocus_by_primitives
                  (mkView (plainBox 0 0 5 10) twoThrees ScrollBarAuto 0)
                  (mkView (plainBox 0 0 5 10)
                     [mkItem 2 8 true; nilItem 1 false; mkItem 1 1 false]
                     ScrollBarNever 4) quietWorld)).
  intros p. unfold GetItems. simpl. rewrite !elem_of_cons, !elem_of_nil.
  intuition congruence.
Defined.

(** * Further properties of Draw and of the mouse handler *)

Section DrawLoopMore.

Context {W : Type} {HW : PrimitiveAPI W}.
Implicit Types (its : list scrollItem) (w : W).

(** The loop calls only primitives of the items it is given. *)
Lemma drawItems_touched x y width s show its pos ps fv w p :
  p ∈ touched (lr_events (drawItems x y width s show its pos ps fv w))
      ++ lr_deferred (drawItems x y width s show its pos ps fv w) ->
  Some p ∈ map Item its.
Proof.
  revert pos ps fv w. induction its as [|it its IH]; intros pos ps fv w; simpl.
  - by intros ?%elem_of_nil.
  - destruct ((ps <? add y s) && show).
    { intros Hin. apply elem_of_cons. right. by eapply IH. }
    destruct (Item it) as [q|] eqn:Hq; [|by intros ?%elem_of_nil].
    destruct (Primitive_HasFocus _ _); simpl; intros Hin.
    + apply elem_of_cons in Hin as [-> | Hin]; [by left|].
      apply elem_of_app in Hin as [Hin | Hin].
      * right. eapply IH. apply elem_of_app. by left.
      * apply elem_of_cons in Hin as [-> | Hin]; [by left|].
        right. eapply IH. apply elem_of_app. by right.
    + apply elem_of_cons in Hin as [-> | Hin]; [by left|].
      apply elem_of_cons in Hin as [-> | Hin]; [by left|].
      right. by eapply IH.
Qed.

(** Every child given a rectangle is drawn once: at once, or deferred. *)
Lemma drawItems_drawn_once x y width s show its pos ps fv w :
  drawn (lr_events (drawItems x y width s show its pos ps fv w))
    ++ lr_deferred (drawItems x y width s show its pos ps fv w)
  ≡ₚ (setRects (lr_events (drawItems x y width s show its pos ps fv w))).*1.
Proof.
  revert pos ps fv w. induction its as [|it its IH]; intros pos ps fv w; simpl.
  - done.
  - destruct ((ps <? add y s) && show); [apply IH|].
    destruct (Item it) as [q|]; [|done].
    destruct (Primitive_HasFocus _ _); simpl.
    + rewrite <- Permutation_middle. by rewrite IH.
    + by rewrite IH.
Qed.

(** With a focus that laying out and drawing do not move, the children
    without focus are drawn at once and the others deferred, in order. *)
Lemma drawItems_order (foc : Prim -> bool) x y width s show its pos ps fv w :
  (forall p q (a b c d : Z) v,
     Primitive_HasFocus p (Primitive_SetRect q a b c d v)
     = Primitive_HasFocus p v) ->
  (forall p q v, Primitive_HasFocus p (Primitive_Draw q v) = Primitive_HasFocus p v) ->
  (forall p, Primitive_HasFocus p w = foc p) ->
  let r := drawItems x y width s show its pos ps fv w in
  drawn (lr_events r)
  = List.filter (fun p => negb (foc p)) (setRects (lr_events r)).*1
  /\ lr_deferred r = List.filter foc (setRects (lr_events r)).*1.
Proof.
  intros Hset Hdraw. revert pos ps fv w.
  induction its as [|it its IH]; intros pos ps fv w Hfoc; simpl.
  - done.
  - destruct ((ps <? add y s) && show); [by apply IH|].
    destruct (Item it) as [q|]; [|done].
    rewrite Hset, Hfoc.
    destruct (foc q) eqn:Hq; simpl; rewrite Hq; simpl.
    + destruct (IH (add pos (FixedSize it)) (add ps (FixedSize it))
                  (if fv =? -1 then ps else fv)
                  (Primitive_SetRect q x pos width (FixedSize it) w))
        as [-> ->]; [|done].
      intros p. by rewrite Hset.
    + destruct (IH (add pos (FixedSize it)) (add ps (FixedSize it))
                  (if fv =? -1 then ps else fv)
                  (Primitive_Draw q
                     (Primitive_SetRect q x pos width (FixedSize it) w)))
        as [-> ->]; [|done].
      intros p. by rewrite Hdraw, Hset.
Qed.

(** Every rectangle of the loop starts in column [x] and has the width
    the loop was given. *)
Lemma drawItems_rects_column x y width s show its pos ps fv w :
  Forall (fun pr => rx pr.2 = x /\ rwidth pr.2 = width)
    (setRects (lr_events (drawItems x y width s show its pos ps fv w))).
Proof.
  revert pos ps fv w. induction its as [|it its IH]; intros pos ps fv w; simpl.
  - done.
  - destruct ((ps <? add y s) && show); [apply IH|].
    destruct (Item it) as [q|]; [|done].
    destruct (Primitive_HasFocus _ _); simpl; constructor; try done; apply IH.
Qed.

(** Items that are not skipped are laid out one below the other. *)
Lemma drawItems_rendered x y width s show its pos ps fv w :
  noNil its ->
  show = false
  \/ (in_range (y + s) /\ y + s <= ps /\ Forall (fun it => 0 <= FixedSize it) its) ->
  Z.abs pos + sumAbs its <= 2 ^ 62 ->
  Z.abs ps + sumAbs its <= 2 ^ 62 ->
  let r := drawItems x y width s show its pos ps fv w in
  setRects (lr_events r) = stack x width pos its
  /\ lr_pos r = pos + sumSizes its
  /\ lr_outcome r = Returned.
Proof.
  intros Hnn. revert pos ps fv w.
  induction Hnn as [|it its Hit _ IH]; intros pos ps fv w Hshow Hpos Hps; simpl.
  - split_and!; [done | lia | done].
  - simpl in Hpos, Hps. pose proof (sumAbs_nonneg its) as Hnonneg.
    assert (Hskip : (ps <? add y s) && show = false).
    { destruct Hshow as [-> | (Hys & Hle & _)]; [apply andb_false_r|].
      rewrite add_exact by done.
      apply andb_false_iff. left. apply Z.ltb_ge. lia. }
    rewrite Hskip. destruct (Item it) as [q|]; [|done].
    rewrite !add_exact by (unfold in_range, int_min, int_max; lia).
    assert (Hshow' : show = false
              \/ (in_range (y + s) /\ y + s <= ps + FixedSize it
                  /\ Forall (fun it => 0 <= FixedSize it) its)).
    { destruct Hshow as [-> | (Hys & Hle & Hsz)]; [by left|]. right.
      inversion Hsz; subst. split_and!; [done | lia | done]. }
    destruct (Primitive_HasFocus _ _); simpl;
      edestruct (IH (pos + FixedSize it) (ps + FixedSize it)) as (-> & -> & ->);
      try done; try lia; split_and!; try done; lia.
Qed.

End DrawLoopMore.

Section DrawChildren.

Context {B : Type} {HB : BoxAPI B} {W : Type} {HW : PrimitiveAPI W}.
Variable Styles : Theme.
Variable unrep : PrimFloat.float -> Z.

Implicit Types (f : ScrollView B) (its : list scrollItem) (w : W).

Lemma rev_is_reverse {A} (l : list A) : rev l = reverse l.
Proof. unfold reverse. apply rev_alt. Qed.

(** A frame either does nothing (invisible view) or runs its body on the
    inner rectangle. *)
Lemma Draw_cases f screen w :
  (Box_GetVisible (Box f) = false
   /\ Draw Styles unrep f screen w
      = {| dr_view := f; dr_world := w; dr_trace := []; dr_outcome := Returned |})
  \/ (exists x y width vh,
        Box_GetVisible (Box f) = true
        /\ Box_GetInnerRect (drawBox f screen) = (x, y, width, vh)
        /\ Draw Styles unrep f screen w
           = drawInner Styles unrep f (drawBox f screen) x y width vh w).
Proof.
  destruct (Box_GetVisible (Box f)) eqn:Hvis.
  - right. destruct (Box_GetInnerRect (drawBox f screen)) as [[[x y] width] vh] eqn:Hr.
    exists x, y, width, vh. split_and!; [done | done |].
    by apply Draw_visible.
  - left. split; [done|]. by apply Draw_invisible.
Qed.

(** What a frame does to the children is what its item loop does, the
    deferred draws coming last. *)
Lemma drawInner_children f box1 x y width vh w :
  let ch := contentHeight (items f) in
  let show := showVerticalScrollBar (scrollBarVisibility f) ch vh in
  let width1 := if (width >? 0) && show then GoInt.sub width 1 else width in
  let r := drawItems x y width1 (clampOffset y vh ch (heightOffset f)) show
             (items f) y y (-1) w in
  let tr := dr_trace (drawInner Styles unrep f box1 x y width vh w) in
  setRects tr = setRects (lr_events r)
  /\ drawn tr = drawn (lr_events r) ++ rev (lr_deferred r)
  /\ touched tr = touched (lr_events r) ++ rev (lr_deferred r)
  /\ exists body,
       tr = body ++ map EvDraw (rev (lr_deferred r))
       /\ drawn body = drawn (lr_events r).
Proof.
  simpl.
  destruct (drawInner_trace Styles unrep f box1 x y width vh w)
    as (bar & -> & Hbar & _). simpl.
  destruct (deferred_obs
              (rev (lr_deferred
                 (drawItems x y
                    (if (width >? 0)
                        && showVerticalScrollBar (scrollBarVisibility f)
                             (contentHeight (items f)) vh
                     then GoInt.sub width 1 else width)
                    (clampOffset y vh (contentHeight (items f)) (heightOffset f))
                    (showVerticalScrollBar (scrollBarVisibility f)
                       (contentHeight (items f)) vh) (items f) y y (-1) w))))
    as (Hd1 & Hd2 & Hd3 & _).
  assert (Hmid : forall mid,
            mid = [] \/ (exists pos wd,
              mid = fillRemaining Styles x y wd vh pos ++ bar) ->
            setRects mid = [] /\ drawn mid = [] /\ touched mid = []).
  { intros mid [-> | (pos & wd & ->)]; [done|].
    destruct (fill_events_obs _ (fillRemaining_kind Styles x y wd vh pos))
      as (Hf1 & Hf2 & Hf3 & _).
    destruct (bar_events_obs _ Hbar) as (Hb1 & Hb2 & Hb3 & _).
    unfold setRects, drawn, touched in *. rewrite !omap_app.
    by rewrite Hf1, Hf2, Hf3, Hb1, Hb2, Hb3. }
  match goal with
  | |- context [lr_events ?r ++ ?mid ++ _] =>
      destruct (Hmid mid) as (Hm1 & Hm2 & Hm3);
        [destruct (lr_outcome r); eauto|];
      split_and!;
        [ unfold setRects in *; rewrite !omap_app, Hm1, Hd1; by rewrite !app_nil_r
        | unfold drawn in *; by rewrite !omap_app, Hm2, Hd2
        | unfold touched in *; by rewrite !omap_app, Hm3, Hd3
        | exists (EvBoxDraw :: lr_events r ++ mid); split;
            [simpl; by rewrite <- !app_assoc
            | simpl; unfold drawn in *; rewrite omap_app, Hm2; by rewrite app_nil_r] ]
  end.
Qed.

Lemma Draw_touched_listed f screen w p :
  p ∈ touched (dr_trace (Draw Styles unrep f screen w)) -> Some p ∈ GetItems f.
Proof.
  destruct (Draw_cases f screen w)
    as [[_ ->] | (x & y & width & vh & _ & _ & ->)]; simpl.
  - by intros ?%elem_of_nil.
  - destruct (drawInner_children f (drawBox f screen) x y width vh w)
      as (_ & _ & -> & _).
    intros Hin.
    rewrite rev_is_reverse, elem_of_app, elem_of_reverse, <- elem_of_app in Hin.
    by eapply drawItems_touched.
Qed.

Lemma forwardMouse_calls_listed action event its capture w c :
  c ∈ (forwardMouse action event its capture w).2 ->
  Some (cc_child c) ∈ map Item its.
Proof.
  revert capture w. induction its as [|it its IH]; intros capture w; simpl.
  - by intros ?%elem_of_nil.
  - destruct (Item it) as [q|] eqn:Hq.
    + destruct (Primitive_MouseHandler q action event w) as [[co cap] w1].
      destruct co; simpl.
      * intros ->%list_elem_of_singleton. by left.
      * specialize (IH cap w1).
        destruct (forwardMouse action event its cap w1) as [[[c0 cap0] w2] calls].
        simpl in *. intros [-> | Hin]%elem_of_cons; [by left|].
        right. by apply IH.
    + intros Hin. right. by eapply IH.
Qed.

Lemma MouseHandler_calls_listed f action event w c :
  c ∈ mr_calls (MouseHandler f action event w) -> Some (cc_child c) ∈ GetItems f.
Proof.
  unfold MouseHandler. destruct (Position event) as [px py].
  destruct (negb _); [by intros ?%elem_of_nil|].
  pose proof (forwardMouse_calls_listed action event (items f) None w c) as Hfwd.
  destruct (forwardMouse action event (items f) None w) as [[[c0 cap0] w2] calls].
  destruct action; simpl; try done; by intros ?%elem_of_nil.
Qed.

Lemma Focus_loop_listed its p : p ∈ Focus_loop its -> Some p ∈ map Item its.
Proof.
  induction its as [|it its IH]; simpl; [by intros ?%elem_of_nil|].
  destruct (Item it) as [q|] eqn:Hq; [destruct (Focus it)|].
  - intros ->%list_elem_of_singleton. by left.
  - intros Hin. right. by apply IH.
  - intros Hin. right. by apply IH.
Qed.

End DrawChildren.

(** X9: the ScrollView reaches only the children it lists.  Every
    primitive that [Draw] lays out or draws, every primitive whose mouse
    handler is called, and the primitive focus is delegated to, is a
    non-nil primitive of [GetItems]. *)
Theorem children_reached_are_listed {B} {HB : BoxAPI B} {W} {HW : PrimitiveAPI W}
    (Styles : Theme) (unrep : PrimFloat.float -> Z)
    (f : ScrollView B) (screen : Screen) (action : MouseAction)
    (event : EventMouse) (w : W) :
  Forall (fun p => Some p ∈ GetItems f)
    (touched (dr_trace (Draw Styles unrep f screen w)))
  /\ Forall (fun c => Some (cc_child c) ∈ GetItems f)
       (mr_calls (MouseHandler f action event w))
  /\ Forall (fun p => Some p ∈ GetItems f) (ScrollView_Focus f).
Proof.
  split_and!; apply Forall_forall.
  - intros p. apply Draw_touched_listed.
  - intros c. apply MouseHandler_calls_listed.
  - intros p. apply Focus_loop_listed.
Qed.

(** X10: a removed primitive is left alone.  After [RemoveItem(p)] no
    frame lays out or draws [p], no mouse event is forwarded to it and
    focus is not delegated to it. *)
Theorem removed_primitive_is_left_alone {B} {HB : BoxAPI B} {W}
    {HW : PrimitiveAPI W} (Styles : Theme) (unrep : PrimFloat.float -> Z)
    (f f' : ScrollView B) (p : Prim) (screen : Screen) (action : MouseAction)
    (event : EventMouse) (w : W) :
  RemoveItem (Some p) f = Some f' ->
  (p ∉ touched (dr_trace (Draw Styles unrep f' screen w)))
  /\ (p ∉ map cc_child (mr_calls (MouseHandler f' action event w)))
  /\ (p ∉ ScrollView_Focus f').
Proof.
  rewrite RemoveItem_filter. intros [= <-].
  assert (Hgone : Some p ∉ GetItems
            (set_items (filter (fun it => Item it <> Some p) (items f)) f)).
  { unfold GetItems. simpl. intros Hin.
    apply list_elem_of_fmap in Hin as [it [Hp Hin]].
    apply list_elem_of_filter in Hin as [Hne _]. by apply Hne. }
  split_and!; intros Hin; apply Hgone.
  - by eapply Draw_touched_listed.
  - apply list_elem_of_fmap in Hin as [c [-> Hc]].
    by eapply MouseHandler_calls_listed.
  - by apply Focus_loop_listed.
Qed.

Lemma removed_primitive_is_left_alone_witness :
  (2%nat ∉ touched
     (dr_trace (toyDraw (mkView (plainBox 0 0 5 10) [mkItem 1 3 false]
                           ScrollBarAuto 0))))
  /\ (2%nat ∉ map cc_child
        (mr_calls (MouseHandler
                     (mkView (plainBox 0 0 5 10) [mkItem 1 3 false] ScrollBarAuto 0)
                     MouseLeftClick (eventAt 1 1) clickWorld)))
  /\ (2%nat ∉ ScrollView_Focus
        (mkView (plainBox 0 0 5 10) [mkItem 1 3 false] ScrollBarAuto 0)).
Proof.
  destruct (removed_primitive_is_left_alone toyStyles GoFloat.unrep_amd64
              (mkView (plainBox 0 0 5 10) twoThrees ScrollBarAuto 0)
              (mkView (plainBox 0 0 5 10) [mkItem 1 3 false] ScrollBarAuto 0)
              2%nat toyScreen MouseLeftClick (eventAt 1 1) quietWorld)
    as (Hdraw & _ & Hfocus); [reflexivity|].
  destruct (removed_primitive_is_left_alone toyStyles GoFloat.unrep_amd64
              (mkView (plainBox 0 0 5 10) twoThrees ScrollBarAuto 0)
              (mkView (plainBox 0 0 5 10) [mkItem 1 3 false] ScrollBarAuto 0)
              2%nat toyScreen MouseLeftClick (eventAt 1 1) clickWorld)
    as (_ & Hmouse & _); [reflexivity|].
  by split_and!.
Defined.

(** X11: every child [Draw] gives a rectangle to is drawn exactly once
    in that frame, at once or deferred, also when the frame ends in a
    panic: the children drawn are, up to order, the children laid out. *)
Theorem Draw_draws_each_child_once {B} {HB : BoxAPI B} {W} {HW : PrimitiveAPI W}
    (Styles : Theme) (unrep : PrimFloat.float -> Z)
    (f : ScrollView B) (screen : Screen) (w : W) :
  drawn (dr_trace (Draw Styles unrep f screen w))
  ≡ₚ (setRects (dr_trace (Draw Styles unrep f screen w))).*1.
Proof.
  destruct (Draw_cases Styles unrep f screen w)
    as [[_ ->] | (x & y & width & vh & _ & _ & ->)]; [done|].
  destruct (drawInner_children Styles unrep f (drawBox f screen) x y width vh w)
    as (-> & -> & _).
  rewrite rev_is_reverse, reverse_Permutation. apply drawItems_drawn_once.
Qed.

(** X12: focused children are drawn last.  When laying out and drawing
    a child does not move the focus, the frame draws the children
    without focus in item order while it walks the items, and the
    children with focus at its very end (after the fill and the scroll
    bar), in reverse item order. *)
Theorem Draw_focused_children_last {B} {HB : BoxAPI B} {W} {HW : PrimitiveAPI W}
    (Styles : Theme) (unrep : PrimFloat.float -> Z)
    (f : ScrollView B) (screen : Screen) (w : W) :
  (forall p q (a b c d : Z) v,
     Primitive_HasFocus p (Primitive_SetRect q a b c d v)
     = Primitive_HasFocus p v) ->
  (forall p q v, Primitive_HasFocus p (Primitive_Draw q v) = Primitive_HasFocus p v) ->
  let tr := dr_trace (Draw Styles unrep f screen w) in
  let laidOut := (setRects tr).*1 in
  exists body,
    tr = body
         ++ map EvDraw
              (rev (List.filter (fun p => Primitive_HasFocus p w) laidOut))
    /\ drawn body
       = List.filter (fun p => negb (Primitive_HasFocus p w)) laidOut.
Proof.
  intros Hset Hdraw. simpl.
  destruct (Draw_cases Styles unrep f screen w)
    as [[_ ->] | (x & y & width & vh & _ & _ & ->)]; [by exists []|].
  destruct (drawInner_children Styles unrep f (drawBox f screen) x y width vh w)
    as (-> & _ & _ & body & -> & Hbody).
  exists body. rewrite Hbody.
  edestruct (drawItems_order (fun p => Primitive_HasFocus p w)) as [-> ->];
    [exact Hset | exact Hdraw | done | done].
Qed.

Lemma Draw_focused_children_last_witness :
  exists body,
    dr_trace (Draw toyStyles GoFloat.unrep_amd64
                (mkView (plainBox 0 0 5 40) threeTens ScrollBarAuto 0)
                toyScreen focusWorld)
    = body ++ [EvDraw 3; EvDraw 1]
    /\ drawn body = [2%nat].
Proof.
  destruct (Draw_focused_children_last toyStyles GoFloat.unrep_amd64
              (mkView (plainBox 0 0 5 40) threeTens ScrollBarAuto 0)
              toyScreen focusWorld)
    as (body & Htr & Hbody); [reflexivity | reflexivity |].
  exists body. split.
  - etrans; [exact Htr|]. f_equal.
  - etrans; [exact Hbody|]. reflexivity.
Defined.

Section DrawGeometry.

Context {B : Type} {HB : BoxAPI B} {W : Type} {HW : PrimitiveAPI W}.
Variable Styles : Theme.
Variable unrep : PrimFloat.float -> Z.

Implicit Types (f : ScrollView B) (its : list scrollItem) (w : W).

Lemma for_lt_bounds lo hi : Forall (fun i => lo <= i < hi) (for_lt lo hi).
Proof.
  unfold for_lt. apply Forall_fmap, Forall_forall. intros k Hk.
  apply elem_of_seq in Hk. simpl. lia.
Qed.

(** The fill writes, for each row from [pos] to the bottom of the
    viewport, the cell in column [x], once per column counted. *)
Lemma fillRemaining_cells x y width vh pos :
  cellsWritten (fillRemaining Styles x y width vh pos)
  = flat_map (fun i => replicate (Z.to_nat (width - x)) (x, i))
      (for_lt pos (add y vh)).
Proof.
  unfold fillRemaining.
  destruct (pos <? add y vh) eqn:Hlt.
  - induction (for_lt pos (add y vh)) as [|i rows IH]; simpl; [done|].
    unfold cellsWritten in *. rewrite omap_app, IH. f_equal.
    unfold for_lt. rewrite Z.sub_0_r.
    generalize (Z.to_nat (width - x)). intros n.
    generalize 0%nat. induction n as [|n IHn]; intros k; simpl; [done|].
    by rewrite IHn.
  - apply Z.ltb_ge in Hlt. unfold for_lt.
    by replace (Z.to_nat (add y vh - pos)) with 0%nat by lia.
Qed.

(** The cells and scroll-bar positions of a frame that returns. *)
Lemma drawInner_surface f box1 x y width vh w :
  let ch := contentHeight (items f) in
  let show := showVerticalScrollBar (scrollBarVisibility f) ch vh in
  let width1 := if (width >? 0) && show then GoInt.sub width 1 else width in
  let r := drawItems x y width1 (clampOffset y vh ch (heightOffset f)) show
             (items f) y y (-1) w in
  let tr := dr_trace (drawInner Styles unrep f box1 x y width vh w) in
  lr_outcome r = Returned ->
  cellsWritten tr = cellsWritten (fillRemaining Styles x y width1 vh (lr_pos r))
  /\ scrollBarCells tr
     = if show
       then map (fun printed => (GoInt.add x width1, GoInt.add y printed))
              (for_lt 0 vh)
       else [].
Proof.
  simpl. intros Hret.
  destruct (drawInner_trace Styles unrep f box1 x y width vh w)
    as (bar & -> & Hbar & Hcells). simpl in Hcells.
  specialize (Hcells Hret). rewrite Hret. simpl.
  match goal with
  | |- context [lr_events ?r ++ _] =>
      destruct (child_events_obs _ (drawItems_kind _ _ _ _ _ _ _ _ _ _ : Forall _ (lr_events r)))
        as (_ & _ & Hl1 & Hl2);
      destruct (child_events_obs _ (proj2 (proj2 (proj2 (deferred_obs (rev (lr_deferred r)))))))
        as (_ & _ & Hd1 & Hd2)
  end.
  destruct (bar_events_obs _ Hbar) as (_ & _ & _ & Hb).
  match goal with
  | |- context [fillRemaining ?S ?a ?b ?c ?d ?e] =>
      destruct (fill_events_obs _ (fillRemaining_kind S a b c d e))
        as (_ & _ & _ & Hf)
  end.
  unfold cellsWritten, scrollBarCells in *.
  rewrite !omap_app, Hl1, Hl2, Hd1, Hd2, Hb, Hf, Hcells.
  by rewrite !app_nil_r.
Qed.

End DrawGeometry.

(** X13: the layout of a frame.  Split the items into those the frame
    skips and the rest (no item skipped when the scroll bar is not
    shown; with the scroll bar, the items that start below the offset,
    the others having sizes that are not negative).  If none of the rest
    is nil, the frame returns, the rest get consecutive rectangles from
    the top of the viewport down, each as tall as its fixed size, and
    the fill touches exactly the rows between the last rectangle and the
    bottom of the viewport. *)
Theorem Draw_layout {B} {HB : BoxAPI B} {W} {HW : PrimitiveAPI W}
    (Styles : Theme) (unrep : PrimFloat.float -> Z)
    (f : ScrollView B) (screen : Screen) (w : W)
    (x y width viewportExtent : Z) (l1 l2 : list scrollItem) :
  Box_GetVisible (Box f) = true ->
  Box_GetInnerRect (drawBox f screen) = (x, y, width, viewportExtent) ->
  items f = l1 ++ l2 ->
  noNil l2 ->
  small y -> small viewportExtent -> small width ->
  small (heightOffset f) -> sizes_small (items f) ->
  let s := heightOffset (dr_view (Draw Styles unrep f screen w)) in
  let show :=
    showVerticalScrollBar (scrollBarVisibility f) (sumSizes (items f))
      viewportExtent in
  let width1 := if (width >? 0) && show then width - 1 else width in
  (show = false -> l1 = []) ->
  (show = true ->
   (forall n, (n < length l1)%nat -> sumSizes (take n l1) < s)
   /\ s <= sumSizes l1
   /\ Forall (fun it => 0 <= FixedSize it) l2) ->
  dr_outcome (Draw Styles unrep f screen w) = Returned
  /\ setRects (dr_trace (Draw Styles unrep f screen w)) = stack x width1 y l2
  /\ cellsWritten (dr_trace (Draw Styles unrep f screen w))
     = flat_map (fun i => replicate (Z.to_nat (width1 - x)) (x, i))
         (for_lt (y + sumSizes l2) (y + viewportExtent)).
Proof.
  intros Hvis Hrect Hitems Hnn Hy Hvh Hwidth Hoff Hsizes s show width1
    Hnoshow Hshown.
  pose proof (sizes_small_sum _ Hsizes) as Hsum.
  assert (Hs : s = clampOffset y viewportExtent (contentHeight (items f))
                     (heightOffset f)).
  { subst s. rewrite (Draw_visible _ _ _ _ _ x y width viewportExtent) by done.
    by rewrite drawInner_view. }
  rewrite (Draw_visible _ _ _ _ _ x y width viewportExtent) by done.
  pose proof (drawInner_children Styles unrep f (drawBox f screen)
                x y width viewportExtent w) as (Hrects & _).
  pose proof (drawInner_surface Styles unrep f (drawBox f screen)
                x y width viewportExtent w) as Hsurf.
  rewrite drawInner_outcome. simpl in Hrects, Hsurf. rewrite Hrects.
  rewrite <- Hs in *. rewrite contentHeight_exact in * by done.
  fold show in Hsurf |- *.
  assert (Hw1 : (if (width >? 0) && show then sub width 1 else width) = width1).
  { subst width1. destruct ((width >? 0) && show); [|done].
    apply sub_exact. unfold small, in_range, int_min, int_max in *. lia. }
  rewrite Hw1 in *.
  pose proof (clampOffset_bounds y viewportExtent (sumSizes (items f))
                (heightOffset f) Hy Hvh Hsum Hoff) as Hsb.
  rewrite <- Hs in Hsb.
  assert (Hl2 : sumAbs l2 <= 2 ^ 60).
  { unfold sizes_small in Hsizes. rewrite Hitems, sumAbs_app in Hsizes.
    pose proof (sumAbs_nonneg l1). lia. }
  assert (Hl1 : sumAbs l1 <= 2 ^ 60).
  { unfold sizes_small in Hsizes. rewrite Hitems, sumAbs_app in Hsizes.
    pose proof (sumAbs_nonneg l2). lia. }
  assert (Hloop :
    let r := drawItems x y width1 s show (items f) y y (-1) w in
    setRects (lr_events r) = stack x width1 y l2
    /\ lr_pos r = y + sumSizes l2 /\ lr_outcome r = Returned).
  { destruct show eqn:Hshow.
    - destruct (Hshown eq_refl) as (Hbelow & Hreach & Hpos).
      rewrite Hitems, drawItems_skip.
      + apply drawItems_rendered; [done | | |].
        * right. split_and!; [|lia|done].
          unfold small, in_range, int_min, int_max in *. lia.
        * unfold small in *. lia.
        * pose proof (sumSizes_abs l1). unfold small in *. lia.
      + unfold small, in_range, int_min, int_max in *. lia.
      + intros n Hn. pose proof (sumSizes_abs (take n l1)).
        pose proof (sumAbs_take n l1).
        unfold small, in_range, int_min, int_max in *. lia.
      + intros n Hn. specialize (Hbelow n Hn). lia.
    - rewrite Hitems, (Hnoshow eq_refl). simpl.
      apply drawItems_rendered; [done | by left | |]; unfold small in *; lia. }
  simpl in Hloop. destruct Hloop as (Hst & Hp & Hret).
  split_and!; [done | done |].
  destruct (Hsurf Hret) as [-> _].
  rewrite fillRemaining_cells, Hp.
  rewrite add_exact by (unfold small, in_range, int_min, int_max in *; lia).
  done.
Qed.

Lemma Draw_layout_witness :
  setRects (dr_trace (toyDraw (mkView (plainBox 2 1 5 8) twoThrees ScrollBarAuto 0)))
  = stack 2 5 1 twoThrees
  /\ cellsWritten
       (dr_trace (toyDraw (mkView (plainBox 2 1 5 8) twoThrees ScrollBarAuto 0)))
     = flat_map (fun i => replicate (Z.to_nat (5 - 2)) (2, i))
         (for_lt (1 + sumSizes twoThrees) (1 + 8)).
Proof.
  edestruct (Draw_layout toyStyles GoFloat.unrep_amd64
               (mkView (plainBox 2 1 5 8) twoThrees ScrollBarAuto 0)
               toyScreen quietWorld 2 1 5 8 [] twoThrees)
    as (_ & Hrects & Hcells);
    [reflexivity | reflexivity | reflexivity
    | repeat constructor; discriminate
    | unfold small; lia | unfold small; lia | unfold small; lia
    | unfold small; simpl; lia | unfold sizes_small; simpl; lia
    | reflexivity | discriminate |].
  split; [exact Hrects | exact Hcells].
Defined.

(** X14: where the scroll bar goes.  In a frame that returns, with
    coordinates that do not overflow: when the scroll bar is shown it is
    rendered once per row of the viewport, in column [x + width - 1]
    (the last column of the inner rectangle) if the inner width is
    positive and in column [x + width] if it is not, and the children
    get rectangles of width [width - 1] (resp. [width]) starting in
    column [x]; when it is not shown the children get the whole width
    and no scroll bar is rendered. *)
Theorem scrollbar_geometry {B} {HB : BoxAPI B} {W} {HW : PrimitiveAPI W}
    (Styles : Theme) (unrep : PrimFloat.float -> Z)
    (f : ScrollView B) (screen : Screen) (w : W)
    (x y width viewportExtent : Z) :
  Box_GetVisible (Box f) = true ->
  Box_GetInnerRect (drawBox f screen) = (x, y, width, viewportExtent) ->
  small x -> small y -> small width -> small viewportExtent ->
  dr_outcome (Draw Styles unrep f screen w) = Returned ->
  let show :=
    showVerticalScrollBar (scrollBarVisibility f) (contentHeight (items f))
      viewportExtent in
  let width1 := if (width >? 0) && show then width - 1 else width in
  scrollBarCells (dr_trace (Draw Styles unrep f screen w))
  = (if show
     then map (fun printed => (x + width1, y + printed)) (for_lt 0 viewportExtent)
     else [])
  /\ Forall (fun pr => rx pr.2 = x /\ rwidth pr.2 = width1)
       (setRects (dr_trace (Draw Styles unrep f screen w))).
Proof.
  intros Hvis Hrect Hx Hy Hwidth Hvh Hret show width1.
  rewrite (Draw_visible _ _ _ _ _ x y width viewportExtent) in Hret |- * by done.
  rewrite drawInner_outcome in Hret.
  pose proof (drawInner_children Styles unrep f (drawBox f screen)
                x y width viewportExtent w) as (Hrects & _).
  destruct (drawInner_surface Styles unrep f (drawBox f screen)
              x y width viewportExtent w Hret) as [_ Hbar].
  simpl in Hrects, Hbar. rewrite Hrects, Hbar. fold show.
  assert (Hw1 : (if (width >? 0) && show then sub width 1 else width) = width1).
  { subst width1. destruct ((width >? 0) && show); [|done].
    apply sub_exact. unfold small, in_range, int_min, int_max in *. lia. }
  rewrite Hw1. split; [|apply drawItems_rects_column].
  destruct show; [|done].
  assert (Hw1s : - 2 ^ 60 - 1 <= width1 <= 2 ^ 60).
  { subst width1. unfold small in *. destruct (width >? 0); simpl; lia. }
  rewrite add_exact by (unfold small, in_range, int_min, int_max in *; lia).
  apply Forall_fmap_ext_1.
  eapply Forall_impl; [apply for_lt_bounds|].
  intros i Hi. simpl.
  by rewrite add_exact by (unfold small, in_range, int_min, int_max in *; lia).
Qed.

Lemma scrollbar_geometry_witness :
  scrollBarCells
    (dr_trace (toyDraw (mkView (plainBox 2 1 5 4) threeTens ScrollBarAuto 0)))
  = [(6, 1); (6, 2); (6, 3); (6, 4)]
  /\ Forall (fun pr => rx pr.2 = 2 /\ rwidth pr.2 = 4)
       (setRects
          (dr_trace (toyDraw (mkView (plainBox 2 1 5 4) threeTens ScrollBarAuto 0)))).
Proof.
  apply (scrollbar_geometry toyStyles GoFloat.unrep_amd64
           (mkView (plainBox 2 1 5 4) threeTens ScrollBarAuto 0)
           toyScreen quietWorld 2 1 5 4);
    try reflexivity; unfold small; lia.
Defined.

Section WheelMore.

Context {B : Type} {HB : BoxAPI B} {W : Type} {HW : PrimitiveAPI W}.
Implicit Types (f : ScrollView B) (w : W).

Lemma set_heightOffset_same f : set_heightOffset (heightOffset f) f = f.
Proof. by destruct f. Qed.

Lemma wheel_up_step f event w :
  Box_InRect (Position event).1 (Position event).2 (Box f) = true ->
  mr_view (MouseHandler f MouseScrollUp event w)
  = set_heightOffset
      (if sub (heightOffset f) 1 <? 0 then 0 else sub (heightOffset f) 1) f.
Proof.
  intros Hin. unfold MouseHandler. destruct (Position event) as [px py].
  simpl in Hin. by rewrite Hin.
Qed.

Lemma wheel_down_step f event w :
  Box_InRect (Position event).1 (Position event).2 (Box f) = true ->
  mr_view (MouseHandler f MouseScrollDown event w)
  = set_heightOffset (add (heightOffset f) 1) f.
Proof.
  intros Hin. unfold MouseHandler. destruct (Position event) as [px py].
  simpl in Hin. by rewrite Hin.
Qed.

(** Without the scroll bar the item loop does not read the offset. *)
Lemma drawItems_offset_inert x y width s s' its pos ps fv w :
  drawItems x y width s false its pos ps fv w
  = drawItems x y width s' false its pos ps fv w.
Proof.
  revert pos ps fv w.
  induction its as [|it its IH]; intros pos ps fv w; simpl; [done|].
  rewrite !andb_false_r. destruct (Item it) as [p|]; [|done].
  destruct (Primitive_HasFocus _ _); by rewrite IH.
Qed.

End WheelMore.

(** X15: the mouse handler never edits the view beyond the scroll
    offset: items, box, mode, color and full-screen flag are as before
    for every action and position.  For an event outside the rectangle
    (a wheel event included) nothing happens at all: same view, same
    children, not consumed, no capture, no child called; and an event
    that is not a vertical wheel event leaves the view as it is. *)
Theorem MouseHandler_frame {B} {HB : BoxAPI B} {W} {HW : PrimitiveAPI W}
    (f : ScrollView B) (action : MouseAction) (event : EventMouse) (w : W) :
  set_heightOffset (heightOffset f) (mr_view (MouseHandler f action event w)) = f
  /\ (Box_InRect (Position event).1 (Position event).2 (Box f) = false ->
      MouseHandler f action event w
      = {| mr_view := f; mr_world := w; mr_consumed := false;
           mr_capture := None; mr_calls := [] |})
  /\ (action <> MouseScrollUp -> action <> MouseScrollDown ->
      mr_view (MouseHandler f action event w) = f).
Proof.
  unfold MouseHandler. destruct (Position event) as [px py]. simpl.
  destruct (Box_InRect px py (Box f)); simpl.
  - destruct (forwardMouse action event (items f) None w)
      as [[[c cap] w1] calls].
    split_and!; [| done |]; destruct action; simpl; try done;
      by destruct f.
  - split_and!; [by destruct f | done | done].
Qed.

Lemma MouseHandler_frame_witness :
  MouseHandler (mkView (plainBox 0 0 5 10) threeTens ScrollBarAuto 4)
    MouseScrollDown (eventAt 7 1) clickWorld
  = {| mr_view := mkView (plainBox 0 0 5 10) threeTens ScrollBarAuto 4;
       mr_world := clickWorld; mr_consumed := false; mr_capture := None;
       mr_calls := [] |}.
Proof.
  apply (MouseHandler_frame
           (mkView (plainBox 0 0 5 10) threeTens ScrollBarAuto 4)
           MouseScrollDown (eventAt 7 1) clickWorld).
  reflexivity.
Defined.

(** X16: wheel-up never leaves a negative offset, whatever the offset
    was (a negative one from [ScrollTo] included); and from an offset
    [k >= 0], [n] wheel-up events inside the rectangle lead to
    [max(0, k - n)]: the offset stops at 0. *)
Theorem wheel_up_stops_at_zero {B} {HB : BoxAPI B} {W} {HW : PrimitiveAPI W}
    (f : ScrollView B) (event : EventMouse) (w : W) :
  Box_InRect (Position event).1 (Position event).2 (Box f) = true ->
  0 <= heightOffset (mr_view (MouseHandler f MouseScrollUp event w))
  /\ (forall n : nat,
        0 <= heightOffset f -> in_range (heightOffset f) ->
        Nat.iter n (fun g => mr_view (MouseHandler g MouseScrollUp event w)) f
        = set_heightOffset (Z.max 0 (heightOffset f - Z.of_nat n)) f).
Proof.
  intros Hin. split.
  - rewrite wheel_up_step by done. simpl.
    destruct (sub (heightOffset f) 1 <? 0) eqn:Hneg; lia.
  - intros n Hk Hr. induction n as [|n IH].
    + simpl. rewrite Z.sub_0_r, Z.max_r by lia.
      symmetry. apply set_heightOffset_same.
    + rewrite Nat.iter_succ, IH, wheel_up_step by done. simpl.
      rewrite sub_exact by (unfold in_range, int_min, int_max in *; lia).
      unfold set_heightOffset. simpl. f_equal.
      destruct (Z.max 0 (heightOffset f - Z.of_nat n) - 1 <? 0) eqn:Hneg; lia.
Qed.

Lemma wheel_up_stops_at_zero_witness :
  Nat.iter 5
    (fun g => mr_view (MouseHandler g MouseScrollUp (eventAt 1 1) quietWorld))
    (mkView (plainBox 0 0 5 10) threeTens ScrollBarAuto 3)
  = mkView (plainBox 0 0 5 10) threeTens ScrollBarAuto 0.
Proof.
  edestruct (wheel_up_stops_at_zero
               (mkView (plainBox 0 0 5 10) threeTens ScrollBarAuto 3)
               (eventAt 1 1) quietWorld) as [_ Hn]; [reflexivity|].
  apply (Hn 5%nat);
    [simpl; lia | unfold in_range, int_min, int_max; simpl; lia].
Defined.

(** X17: [n] wheel-down events inside the rectangle add [n] to the
    offset, and the next [Draw] shows [min(k + n, contentExtent -
    viewportExtent)] over content taller than the viewport and [k + n]
    itself otherwise: without a ceiling the offset keeps growing. *)
Theorem wheel_down_then_Draw {B} {HB : BoxAPI B} {W} {HW : PrimitiveAPI W}
    (Styles : Theme) (unrep : PrimFloat.float -> Z)
    (f : ScrollView B) (event : EventMouse) (w w' : W) (screen : Screen)
    (x y width viewportExtent : Z) (n : nat) :
  Box_InRect (Position event).1 (Position event).2 (Box f) = true ->
  Box_GetVisible (Box f) = true ->
  Box_GetInnerRect (drawBox f screen) = (x, y, width, viewportExtent) ->
  small y -> small viewportExtent ->
  small (heightOffset f) -> small (heightOffset f + Z.of_nat n) ->
  sizes_small (items f) ->
  let scrolled :=
    Nat.iter n (fun g => mr_view (MouseHandler g MouseScrollDown event w)) f in
  scrolled = set_heightOffset (heightOffset f + Z.of_nat n) f
  /\ heightOffset (dr_view (Draw Styles unrep scrolled screen w'))
     = if viewportExtent <? sumSizes (items f)
       then Z.min (heightOffset f + Z.of_nat n)
              (sumSizes (items f) - viewportExtent)
       else heightOffset f + Z.of_nat n.
Proof.
  intros Hin Hvis Hrect Hy Hvh Hk Hkn Hsizes scrolled.
  assert (Hiter : forall m : nat, (m <= n)%nat ->
            Nat.iter m (fun g => mr_view (MouseHandler g MouseScrollDown event w)) f
            = set_heightOffset (heightOffset f + Z.of_nat m) f).
  { induction m as [|m IH]; intros Hm.
    - simpl. rewrite Z.add_0_r. symmetry. apply set_heightOffset_same.
    - rewrite Nat.iter_succ, IH, wheel_down_step by (done || lia). simpl.
      rewrite add_exact by (unfold small, in_range, int_min, int_max in *; lia).
      unfold set_heightOffset. simpl. f_equal. lia. }
  assert (Hsc : scrolled = set_heightOffset (heightOffset f + Z.of_nat n) f)
    by (by apply Hiter).
  split; [done|]. rewrite Hsc.
  by rewrite (Draw_offset _ _ _ _ _ x y width viewportExtent).
Qed.

Lemma wheel_down_then_Draw_witness :
  heightOffset
    (dr_view (toyDraw
       (Nat.iter 30
          (fun g => mr_view (MouseHandler g MouseScrollDown (eventAt 1 1) quietWorld))
          (mkView (plainBox 0 0 5 10) threeTens ScrollBarAuto 3))))
  = 20.
Proof.
  etrans.
  - apply (wheel_down_then_Draw toyStyles GoFloat.unrep_amd64
             (mkView (plainBox 0 0 5 10) threeTens ScrollBarAuto 3)
             (eventAt 1 1) quietWorld quietWorld toyScreen 0 0 5 10 30);
      try reflexivity; unfold small, sizes_small; simpl; lia.
  - reflexivity.
Defined.

(** X18: what a frame changes in the view.  [Draw] never edits the item
    list, the mode, the color or the full-screen flag, also when it ends
    in a panic; an invisible view is left untouched and nothing is
    emitted; and re-drawing is stable: a second frame on the same inner
    rectangle leaves the offset where the first one put it. *)
Theorem Draw_frame {B} {HB : BoxAPI B} {W} {HW : PrimitiveAPI W}
    (Styles : Theme) (unrep : PrimFloat.float -> Z)
    (f : ScrollView B) (screen : Screen) (w : W) :
  let f1 := dr_view (Draw Styles unrep f screen w) in
  items f1 = items f
  /\ scrollBarVisibility f1 = scrollBarVisibility f
  /\ scrollBarColor f1 = scrollBarColor f
  /\ fullScreen f1 = fullScreen f
  /\ Box f1 = (if Box_GetVisible (Box f) then drawBox f screen else Box f)
  /\ (Box_GetVisible (Box f) = false ->
      Draw Styles unrep f screen w
      = {| dr_view := f; dr_world := w; dr_trace := []; dr_outcome := Returned |})
  /\ (forall (w' : W) (x y width viewportExtent : Z),
        Box_GetVisible (Box f) = true ->
        Box_GetInnerRect (drawBox f screen) = (x, y, width, viewportExtent) ->
        Box_GetVisible (drawBox f screen) = true ->
        Box_GetInnerRect (drawBox f1 screen) = (x, y, width, viewportExtent) ->
        small y -> small viewportExtent -> small (heightOffset f) ->
        sizes_small (items f) ->
        heightOffset (dr_view (Draw Styles unrep f1 screen w')) = heightOffset f1).
Proof.
  simpl.
  destruct (Draw_cases Styles unrep f screen w)
    as [[Hvis Hdraw] | (x & y & width & vh & Hvis & Hrect & Hdraw)].
  - rewrite Hdraw, Hvis. simpl. split_and!; try done.
  - assert (Hview : dr_view (Draw Styles unrep f screen w)
              = set_heightOffset
                  (clampOffset y vh (contentHeight (items f)) (heightOffset f))
                  (set_Box (drawBox f screen) f))
      by (by rewrite Hdraw, drawInner_view).
    rewrite Hview, Hvis. simpl. split_and!; try done.
    intros w' x' y' width' vh' _ Hrect' Hvis1 Hrect1 Hy Hvh Hoff Hsizes.
    rewrite Hrect in Hrect'. injection Hrect' as <- <- <- <-.
    pose proof (sizes_small_sum _ Hsizes) as Hsum.
    rewrite (Draw_offset _ _ _ _ _ x y width vh); simpl; try done.
    + rewrite contentHeight_exact, clampOffset_exact by done.
      destruct (vh <? sumSizes (items f)); lia.
    + rewrite contentHeight_exact, clampOffset_exact by done.
      unfold small in *. destruct (vh <? sumSizes (items f)) eqn:Hlt; [|done].
      apply Z.ltb_lt in Hlt. lia.
Qed.

Lemma Draw_frame_witness :
  heightOffset
    (dr_view (toyDraw
       (dr_view (toyDraw (mkView (plainBox 0 0 5 10) threeTens ScrollBarAuto 50)))))
  = heightOffset
      (dr_view (toyDraw (mkView (plainBox 0 0 5 10) threeTens ScrollBarAuto 50))).
Proof.
  edestruct (Draw_frame toyStyles GoFloat.unrep_amd64
               (mkView (plainBox 0 0 5 10) threeTens ScrollBarAuto 50)
               toyScreen quietWorld)
    as (_ & _ & _ & _ & _ & _ & Hstable).
  apply (Hstable quietWorld 0 0 5 10);
    try reflexivity; unfold small, sizes_small; simpl; lia.
Defined.

(** X19: without the scroll bar the offset is inert.  In a frame that
    does not show the scroll bar (mode [Never], or mode [Auto] with
    content that fits), the children's rectangles, the draws, the fill
    and the outcome are the same whatever offset [ScrollTo] has set:
    only the stored offset differs. *)
Theorem offset_inert_without_scrollbar {B} {HB : BoxAPI B} {W}
    {HW : PrimitiveAPI W} (Styles : Theme) (unrep : PrimFloat.float -> Z)
    (f : ScrollView B) (k k' : Z) (screen : Screen) (w : W) :
  (forall x y width vh,
     Box_GetInnerRect (drawBox f screen) = (x, y, width, vh) ->
     showVerticalScrollBar (scrollBarVisibility f) (contentHeight (items f)) vh
     = false) ->
  dr_trace (Draw Styles unrep (ScrollTo k k' f) screen w)
  = dr_trace (Draw Styles unrep f screen w)
  /\ dr_world (Draw Styles unrep (ScrollTo k k' f) screen w)
     = dr_world (Draw Styles unrep f screen w)
  /\ dr_outcome (Draw Styles unrep (ScrollTo k k' f) screen w)
     = dr_outcome (Draw Styles unrep f screen w).
Proof.
  intros Hshow. unfold Draw. simpl.
  destruct (negb (Box_GetVisible (Box f))); [done|].
  change (drawBox (ScrollTo k k' f) screen) with (drawBox f screen).
  destruct (Box_GetInnerRect (drawBox f screen)) as [[[x y] width] vh] eqn:Hrect.
  specialize (Hshow x y width vh eq_refl).
  unfold drawInner. simpl. rewrite Hshow. simpl.
  rewrite (drawItems_offset_inert x y _
             (clampOffset y vh (contentHeight (items f)) k)
             (clampOffset y vh (contentHeight (items f)) (heightOffset f))).
  by destruct (lr_outcome _).
Qed.

Lemma offset_inert_without_scrollbar_witness :
  dr_trace (toyDraw (ScrollTo 4 0
              (mkView (plainBox 0 0 5 10) threeTens ScrollBarNever 0)))
  = dr_trace (toyDraw (mkView (plainBox 0 0 5 10) threeTens ScrollBarNever 0)).
Proof.
  apply (offset_inert_without_scrollbar toyStyles GoFloat.unrep_amd64
           (mkView (plainBox 0 0 5 10) threeTens ScrollBarNever 0)
           4 0 toyScreen quietWorld).
  intros x y width vh _. reflexivity.
Defined.

(** X20: the frame's own writes stay in one column.  Whatever the
    items, the mode and the offset, every cell [Draw] writes through
    [SetContent] lies in column [x] of the inner rectangle: the columns
    to its right are never blanked by the fill. *)
Theorem Draw_writes_one_column {B} {HB : BoxAPI B} {W} {HW : PrimitiveAPI W}
    (Styles : Theme) (unrep : PrimFloat.float -> Z)
    (f : ScrollView B) (screen : Screen) (w : W) (x y width viewportExtent : Z) :
  Box_GetInnerRect (drawBox f screen) = (x, y, width, viewportExtent) ->
  Forall (fun c => c.1 = x)
    (cellsWritten (dr_trace (Draw Styles unrep f screen w))).
Proof.
  intros Hrect. unfold Draw.
  destruct (negb (Box_GetVisible (Box f))); [done|].
  rewrite Hrect. apply drawInner_cells.
Qed.

Lemma Draw_writes_one_column_witness :
  Forall (fun c => c.1 = 2)
    (cellsWritten
       (dr_trace (toyDraw (mkView (plainBox 2 1 5 8) twoThrees ScrollBarAuto 0)))).
Proof.
  apply (Draw_writes_one_column toyStyles GoFloat.unrep_amd64
           (mkView (plainBox 2 1 5 8) twoThrees ScrollBarAuto 0)
           toyScreen quietWorld 2 1 5 8).
  reflexivity.
Defined.


